(** * The MNIST trainer model (mnist/distributed/trainer/model.py)

    The Python module builds TensorFlow graphs: every function of the module
    creates graph nodes and returns handles to them, and a session later runs
    the nodes on a batch.  The development follows that split.

    - [tensor] and [operation] are the graph nodes the module creates.
    - [G] is the graph-construction monad: the default graph (variable
      scopes, variables, collections, summaries), the log, and Python
      exceptions.
    - [eval] and [run] give the value a node computes in a session.

    Float tensors hold real numbers: the float32 roundings of the runtime
    are not modelled.  The one float that is no number and that the graphs
    of the module can produce from real inputs, the mean of an empty tensor,
    is the value [VNaN]. *)

From Stdlib Require Import Reals Lra Lia ZArith QArith Qround Qabs List Ascii String DecimalString.
From Stdlib Require Lqa.
From stdpp Require Import gmap strings list fin_maps.

Local Open Scope Z_scope.

(** ** Constants of the module *)

Definition HIDDEN1 : nat := 128.
Definition HIDDEN2 : nat := 32.
Definition NUM_CLASSES : nat := 10.
Definition IMAGE_SIZE : nat := 28.
Definition IMAGE_PIXELS : nat := (IMAGE_SIZE * IMAGE_SIZE)%nat.

(** ** TensorFlow data *)

Inductive dtype := DT_FLOAT | DT_INT32 | DT_INT64 | DT_STRING | DT_BOOL.

(** The [tf.train.Feature] message of an [Example] record. *)
Inductive Feature :=
| BytesList (value : list string)
| FloatList (value : list R)
| Int64List (value : list Z).

(** A serialized [tf.train.Example] is modelled by the message it encodes:
    a map from feature names to features. *)
Abbreviation Example := (gmap string Feature).

(** [tf.FixedLenFeature(shape, dtype, default_value)]. *)
Record FixedLenFeature := {
  fl_shape : list nat;
  fl_dtype : dtype;
  fl_default_value : option Feature
}.

(** Activation functions of [tf.contrib.layers]. *)
Inductive activation := Relu.

(** The arguments of one call of the input reader. *)
Record ReaderArgs := {
  ra_data_paths : list string;
  ra_batch_size : Z;
  ra_shuffle : bool;
  ra_num_epochs : option Z
}.

(** Graph nodes with an output.  A [Placeholder] carries the number the graph
    gave it, a [FullyConnected] layer the number of its variable scope
    ([fully_connected], [fully_connected_1], ...), a [VariableRef] its position
    in the graph's variable list and a [StreamingMean] its metric slot. *)
Inductive tensor :=
| Placeholder (id : nat) (dt : dtype)
| ReaderKeys (args : ReaderArgs)
| ReaderExamples (args : ReaderArgs)
| ParseExample (serialized : tensor) (features : gmap string FixedLenFeature)
               (key : string)
| FullyConnected (scope : nat) (inputs : tensor) (num_outputs : nat)
                 (activation_fn : option activation)
| Softmax (logits : tensor)
| ArgMax (input : tensor) (dimension : nat)
| ToInt64 (x : tensor)
| SparseSoftmaxCrossEntropyWithLogits (logits labels : tensor)
| ReduceMean (input : tensor)
| InTopK (predictions targets : tensor) (k : nat)
| Cast (x : tensor) (dt : dtype)
| VariableRef (index : nat)
| StreamingMeanValue (slot : nat).

(** Graph nodes run for their effect on the session's variables. *)
Inductive operation :=
| Minimize (learning_rate : R) (loss : tensor) (global_step : option tensor)
| StreamingMeanUpdate (slot : nat) (values : tensor).

(** [tf.Variable(initial_value, name=..., trainable=...)] for a Python
    integer as initial value: a signed 32-bit integer variable. *)
Record VariableDef := {
  var_initial_value : Z;
  var_name : string;
  var_trainable : bool
}.

(** A tensor's name identifies the tensor in its graph (the serving layer
    resolves it with [get_tensor_by_name]); a name is modelled by the tensor
    it names. *)
Inductive tensor_name := NameOf (t : tensor).

(** The document [json.dumps] writes for a flat dict of tensor names. *)
Inductive json := JsonObject (members : gmap string tensor_name).

(** ** The graph-construction monad *)

(** The process state graph construction acts on: the default graph and the
    log.  [collections] holds the entries the module adds with
    [tf.add_to_collection], which are JSON documents.  The collections the
    framework fills itself are not kept there but in fields of their own:
    [variables] for the variables declared with [tf.Variable], [summaries]
    for the summary nodes, and the counters [next_scope] and [next_metric]
    for the variables of the layers and of the streaming means. *)
Record World := {
  next_placeholder : nat;
  next_scope : nat;
  next_metric : nat;
  variables : list VariableDef;
  collections : gmap string (list json);
  summaries : list (string * tensor);
  log : list string
}.

(** A computation that may raise (None) and otherwise returns a value and the
    new state. *)
Definition G (A : Type) : Type := World -> option (A * World).

Global Instance G_ret : MRet G := fun A a w => Some (a, w).

Global Instance G_bind : MBind G := fun A B f m w =>
  match m w with
  | Some (a, w') => f a w'
  | None => None
  end.

(** A Python exception. *)
Definition raise {A} : G A := fun _ => None.

(** The value a computation returns from state [w], None when it raises. *)
Definition result {A} (m : G A) (w : World) : option A := fst <$> m w.

(** The state a computation leaves, None when it raises. *)
Definition final {A} (m : G A) (w : World) : option World := snd <$> m w.

(** ** Session values *)

(** The value of a tensor in a run; the rank is part of the constructor.
    [VNaN] is the float scalar that is not a number. *)
Inductive value :=
| VFloat0 (x : R)
| VFloat1 (v : list R)
| VFloat2 (m : list (list R))
| VNaN
| VInt0 (z : Z)
| VInt1 (v : list Z)
| VInt2 (m : list (list Z))
| VBool1 (v : list bool)
| VStr1 (v : list string)
| VStr2 (m : list (list string))
| VExamples (records : list Example).

(** The trainable variables of one fully connected layer.  The layer reads
    [weights i j] for [i] below its input width and [j] below its output
    width. *)
Record LayerParams := {
  weights : nat -> nat -> R;
  biases : nat -> R
}.

(** The variables of a session: the layers' trainable variables by scope, the
    integer variables by index, and total and count of each streaming mean.
    A total of None is not a number. *)
Record Session := {
  layer_params : nat -> LayerParams;
  int_variables : list Z;
  metric_variables : nat -> option R * nat
}.

(** What one run is given: the feed dict, by placeholder, and the batch the
    input reader delivers to this run. *)
Record Feeds := {
  feed_dict : nat -> option value;
  reader_batch : option (list string * list Example)
}.

(** ** Numeric kernels *)

Section Kernels.
Local Open Scope R_scope.

#[global] Instance Rlt_decision (x y : R) : Decision (x < y) := Rlt_dec x y.

Definition relu (x : R) : R := Rmax 0 x.

Definition apply_activation (a : option activation) (x : R) : R :=
  match a with
  | Some Relu => relu x
  | None => x
  end.

Definition Rsum (l : list R) : R := fold_right Rplus 0 l.

(** Sum of [row[k] * w (i + k)] over the row. *)
Fixpoint dot_from (i : nat) (row : list R) (w : nat -> R) : R :=
  match row with
  | [] => 0
  | x :: row' => x * w i + dot_from (S i) row' w
  end.

(** Output [j] of the affine map [row . W + b]. *)
Definition affine (p : LayerParams) (row : list R) (j : nat) : R :=
  dot_from 0 row (fun i => weights p i j) + biases p j.

Definition fully_connected_row (p : LayerParams) (num_outputs : nat)
    (a : option activation) (row : list R) : list R :=
  (fun j => apply_activation a (affine p row j)) <$> seq 0 num_outputs.

Definition softmax_row (row : list R) : list R :=
  (fun x => exp x / Rsum (exp <$> row)) <$> row.

(** Index of the first largest entry at or after position [i]; [best_i] and
    [best] are the largest so far. *)
Fixpoint argmax_from (best_i : nat) (best : R) (i : nat) (l : list R) : nat :=
  match l with
  | [] => best_i
  | x :: l' => if decide (best < x) then argmax_from i x (S i) l'
               else argmax_from best_i best (S i) l'
  end.

Definition argmax_row (row : list R) : Z :=
  match row with
  | [] => 0%Z
  | x :: l => Z.of_nat (argmax_from 0 x 1 l)
  end.

(** [-log softmax(row)[label]], None when the label is no class index. *)
Definition xent_row (row : list R) (label : Z) : option R :=
  if decide (0 <= label)%Z then
    x ← row !! Z.to_nat label; Some (ln (Rsum (exp <$> row)) - x)
  else None.

(** The score of a target in a row, None when the target is no class
    index. *)
Definition target_score (row : list R) (target : Z) : option R :=
  if decide (0 <= target)%Z then row !! Z.to_nat target else None.

(** Whether the target's score is among the [k] largest of the row: fewer than
    [k] scores are strictly larger.  The kernel raises no error for a target
    that is no class index: the example counts as not in the top [k]. *)
Definition in_top_k_row (k : nat) (row : list R) (target : Z) : bool :=
  match target_score row target with
  | Some x => bool_decide (length (filter (fun y => Rlt x y) row) < k)%nat
  | None => false
  end.

Definition mean (l : list R) : R := Rsum l / INR (length l).

(** The sum of two floats either of which may be no number (None). *)
Definition nan_plus (x y : option R) : option R :=
  match x, y with
  | Some a, Some b => Some (a + b)
  | _, _ => None
  end.

Definition bool_to_float (b : bool) : R := if b then 1 else 0.

End Kernels.

(** Conversion to a signed 64-bit integer, wrapping. *)
Definition wrap_int64 (z : Z) : Z := (z + 2 ^ 63) mod 2 ^ 64 - 2 ^ 63.

(** The value a signed 32-bit integer variable holds after arithmetic on it:
    the result wraps around. *)
Definition wrap_int32 (z : Z) : Z := (z + 2 ^ 31) mod 2 ^ 32 - 2 ^ 31.

(** The mean of the entries of a float tensor: of no entry at all it is not
    a number. *)
Definition mean_value (l : list R) : value :=
  match l with
  | [] => VNaN
  | _ :: _ => VFloat0 (mean l)
  end.

(** Whether a value is a float tensor. *)
Definition float_value (v : value) : bool :=
  match v with
  | VFloat0 _ | VFloat1 _ | VFloat2 _ | VNaN => true
  | _ => false
  end.

(** Sum and number of the entries of a tensor converted to float; the sum is
    None when it is not a number.  Strings do not convert. *)
Definition sum_and_size (v : value) : option (option R * nat) :=
  match v with
  | VFloat0 x => Some (Some x, 1%nat)
  | VNaN => Some (None, 1%nat)
  | VFloat1 l => Some (Some (Rsum l), length l)
  | VFloat2 m => Some (Some (Rsum (concat m)), length (concat m))
  | VInt0 z => Some (Some (IZR z), 1%nat)
  | VInt1 l => Some (Some (Rsum (IZR <$> l)), length l)
  | VInt2 m => Some (Some (Rsum (IZR <$> concat m)), length (concat m))
  | VBool1 l => Some (Some (Rsum (bool_to_float <$> l)), length l)
  | VStr1 _ | VStr2 _ | VExamples _ => None
  end.

(** Applies [f] to paired rows and labels; None if the lengths differ or [f]
    fails on a pair. *)
Definition zip_rows {A B C} (f : A -> B -> option C) (rows : list A)
    (labels : list B) : option (list C) :=
  if decide (length rows = length labels)
  then mapM (fun p => f p.1 p.2) (zip rows labels)
  else None.

(** ** Parsing of example records *)

Definition num_elements (shape : list nat) : nat := fold_right Nat.mul 1%nat shape.

(** The feature of a record, or the default where the record has none. *)
Definition feature_or_default (spec : FixedLenFeature) (f : option Feature)
    : option Feature :=
  match f with
  | Some f => Some f
  | None => fl_default_value spec
  end.

(** A feature must have the declared type and as many values as the declared
    shape has elements. *)
Definition check_feature (spec : FixedLenFeature) (f : Feature) : option Feature :=
  match fl_dtype spec, f with
  | DT_FLOAT, FloatList l
  | DT_INT64, Int64List l
  | DT_STRING, BytesList l =>
      if decide (length l = num_elements (fl_shape spec)) then Some f else None
  | _, _ => None
  end.

Definition floats_of (f : Feature) : list R :=
  match f with FloatList l => l | _ => [] end.
Definition ints_of (f : Feature) : list Z :=
  match f with Int64List l => l | _ => [] end.
Definition bytes_of (f : Feature) : list string :=
  match f with BytesList l => l | _ => [] end.

(** The dense tensor of a batch of checked features: one entry per record for
    a scalar shape, one row per record otherwise. *)
Definition dense (spec : FixedLenFeature) (fs : list Feature) : option value :=
  match fl_dtype spec, fl_shape spec with
  | DT_FLOAT, [] => Some (VFloat1 (concat (floats_of <$> fs)))
  | DT_FLOAT, _ => Some (VFloat2 (floats_of <$> fs))
  | DT_INT64, [] => Some (VInt1 (concat (ints_of <$> fs)))
  | DT_INT64, _ => Some (VInt2 (ints_of <$> fs))
  | DT_STRING, [] => Some (VStr1 (concat (bytes_of <$> fs)))
  | DT_STRING, _ => Some (VStr2 (bytes_of <$> fs))
  | _, _ => None
  end.

Definition parse_dense (spec : FixedLenFeature) (key : string)
    (records : list Example) : option value :=
  fs ← mapM (fun ex : Example =>
               feature_or_default spec (ex !! key) ≫= check_feature spec) records;
  dense spec fs.

(** ** The static type of a tensor *)

(** The element type of a tensor. *)
Fixpoint dtype_of (t : tensor) : option dtype :=
  match t with
  | Placeholder _ dt => Some dt
  | ReaderKeys _ | ReaderExamples _ => Some DT_STRING
  | ParseExample _ features key => fl_dtype <$> features !! key
  | FullyConnected _ x _ _ | Softmax x | ReduceMean x
  | SparseSoftmaxCrossEntropyWithLogits x _ => dtype_of x
  | ArgMax _ _ | ToInt64 _ => Some DT_INT64
  | InTopK _ _ _ => Some DT_BOOL
  | Cast _ dt => Some dt
  | VariableRef _ => Some DT_INT32
  | StreamingMeanValue _ => Some DT_FLOAT
  end.

(** The rank of a tensor, where the node itself fixes it: a [Placeholder]
    node does not record the shape it was declared with. *)
Fixpoint rank_of (t : tensor) : option nat :=
  match t with
  | Placeholder _ _ => None
  | ReaderKeys _ | ReaderExamples _ => Some 1%nat
  | ParseExample _ features key =>
      (fun spec => S (length (fl_shape spec))) <$> features !! key
  | FullyConnected _ x _ _ | Softmax x | ToInt64 x | Cast x _ => rank_of x
  | ArgMax x _ | SparseSoftmaxCrossEntropyWithLogits x _ => Nat.pred <$> rank_of x
  | InTopK _ _ _ => Some 1%nat
  | ReduceMean _ | VariableRef _ | StreamingMeanValue _ => Some 0%nat
  end.

Definition is_float (dt : option dtype) : bool :=
  match dt with
  | Some DT_FLOAT => true
  | _ => false
  end.

(** What a fully connected layer requires of its input when it is added to
    the graph: float entries, for the initializer of the weights, and a rank
    of at least 2, for the width of the weights. *)
Definition layer_input_ok (inputs : tensor) : bool :=
  is_float (dtype_of inputs) &&
  match rank_of inputs with
  | Some r => (2 <=? r)%nat
  | None => true
  end.

(** The variable scopes of the layers whose variables a tensor has a gradient
    for: the layers it is computed from through differentiable nodes. *)
Fixpoint trained_scopes (t : tensor) : list nat :=
  match t with
  | FullyConnected scope x _ _ => scope :: trained_scopes x
  | Softmax x | ReduceMean x | SparseSoftmaxCrossEntropyWithLogits x _ =>
      trained_scopes x
  | Cast x DT_FLOAT => if is_float (dtype_of x) then trained_scopes x else []
  | _ => []
  end.

(** ** Running a graph *)

(** The value a streaming mean reads: 0 before the first update. *)
Definition streaming_mean_of (m : option R * nat) : value :=
  match m.2, m.1 with
  | O, _ => VFloat0 0%R
  | S _, Some total => VFloat0 (total / INR m.2)%R
  | S _, None => VNaN
  end.

(** The value of a tensor in one run. *)
Fixpoint eval (feeds : Feeds) (sess : Session) (t : tensor) : option value :=
  match t with
  | Placeholder id _ => feed_dict feeds id
  | ReaderKeys _ => p ← reader_batch feeds; Some (VStr1 p.1)
  | ReaderExamples _ => p ← reader_batch feeds; Some (VExamples p.2)
  | ParseExample serialized features key =>
      match eval feeds sess serialized with
      | Some (VExamples records) =>
          if bool_decide (map_Forall
               (fun k spec => is_Some (parse_dense spec k records)) features)
          then spec ← features !! key; parse_dense spec key records
          else None
      | _ => None
      end
  | FullyConnected scope inputs num_outputs a =>
      match eval feeds sess inputs with
      | Some (VFloat2 m) =>
          Some (VFloat2
                  (fully_connected_row (layer_params sess scope) num_outputs a <$> m))
      | _ => None
      end
  | Softmax logits =>
      match eval feeds sess logits with
      | Some (VFloat2 m) => Some (VFloat2 (softmax_row <$> m))
      | _ => None
      end
  | ArgMax input dimension =>
      match eval feeds sess input, dimension with
      | Some (VFloat2 m), 1%nat => Some (VInt1 (argmax_row <$> m))
      | _, _ => None
      end
  | ToInt64 x =>
      match eval feeds sess x with
      | Some (VInt0 z) => Some (VInt0 (wrap_int64 z))
      | Some (VInt1 v) => Some (VInt1 (wrap_int64 <$> v))
      | Some (VInt2 m) => Some (VInt2 (fmap (M := list) wrap_int64 <$> m))
      | _ => None
      end
  | SparseSoftmaxCrossEntropyWithLogits logits labels =>
      match eval feeds sess logits, eval feeds sess labels with
      | Some (VFloat2 m), Some (VInt1 ls) => VFloat1 <$> zip_rows xent_row m ls
      | _, _ => None
      end
  | ReduceMean input =>
      match eval feeds sess input with
      | Some (VFloat0 x) => Some (VFloat0 x)
      | Some VNaN => Some VNaN
      | Some (VFloat1 v) => Some (mean_value v)
      | Some (VFloat2 m) => Some (mean_value (concat m))
      | _ => None
      end
  | InTopK predictions targets k =>
      match eval feeds sess predictions, eval feeds sess targets with
      | Some (VFloat2 m), Some (VInt1 ls) =>
          VBool1 <$> zip_rows (fun row l => Some (in_top_k_row k row l)) m ls
      | _, _ => None
      end
  | Cast x dt =>
      match eval feeds sess x, dt with
      | Some (VBool1 v), DT_FLOAT => Some (VFloat1 (bool_to_float <$> v))
      | Some (VInt1 v), DT_FLOAT => Some (VFloat1 (IZR <$> v))
      | Some (VFloat0 x), DT_FLOAT => Some (VFloat0 x)
      | Some (VFloat1 v), DT_FLOAT => Some (VFloat1 v)
      | Some (VFloat2 m), DT_FLOAT => Some (VFloat2 m)
      | Some VNaN, DT_FLOAT => Some VNaN
      | _, _ => None
      end
  | VariableRef index => z ← int_variables sess !! index; Some (VInt0 z)
  | StreamingMeanValue slot =>
      Some (streaming_mean_of (metric_variables sess slot))
  end.

Definition set_layer_params (p : nat -> LayerParams) (s : Session) : Session :=
  {| layer_params := p;
     int_variables := int_variables s;
     metric_variables := metric_variables s |}.

Definition set_int_variables (v : list Z) (s : Session) : Session :=
  {| layer_params := layer_params s;
     int_variables := v;
     metric_variables := metric_variables s |}.

Definition set_metric_variables (m : nat -> option R * nat) (s : Session)
    : Session :=
  {| layer_params := layer_params s;
     int_variables := int_variables s;
     metric_variables := m |}.

(** One step of gradient descent on the parameters of the layers in
    [scopes]; the other layers keep their parameters. *)
Definition descend (lr : R) (scopes : list nat) (g p : nat -> LayerParams)
    : nat -> LayerParams :=
  fun scope =>
    if bool_decide (scope ∈ scopes) then
      {| weights := fun i j => (weights (p scope) i j - lr * weights (g scope) i j)%R;
         biases := fun j => (biases (p scope) j - lr * biases (g scope) j)%R |}
    else p scope.

Section Run.

(** The gradient of a float tensor (of the sum of its entries, when it is no
    scalar) with respect to the parameters of the layers, as the framework's
    automatic differentiation computes it.  The development is parametric in
    it: no statement depends on the numbers it returns. *)
Variable gradients : Feeds -> Session -> tensor -> nat -> LayerParams.

(** The effect of running an operation once.  A [Minimize] node evaluates the
    loss, moves the variables of the layers the loss has a gradient for
    against that gradient, and then increments the variable given as its
    global step, a signed 32-bit integer.  A [StreamingMeanUpdate] node adds
    the sum of the values to its total and their number to its count. *)
Definition run (feeds : Feeds) (sess : Session) (op : operation) : option Session :=
  match op with
  | Minimize lr loss global_step =>
      match eval feeds sess loss with
      | Some v =>
          if float_value v then
            let sess' :=
              set_layer_params
                (descend lr (trained_scopes loss) (gradients feeds sess loss)
                   (layer_params sess)) sess in
            match global_step with
            | None => Some sess'
            | Some (VariableRef i) =>
                z ← int_variables sess !! i;
                Some (set_int_variables
                        (<[i := wrap_int32 (z + 1)]> (int_variables sess)) sess')
            | Some _ => None
            end
          else None
      | None => None
      end
  | StreamingMeanUpdate slot values =>
      match eval feeds sess values ≫= sum_and_size with
      | Some (total, count) =>
          let m := metric_variables sess slot in
          Some (set_metric_variables
                  (fun s => if decide (s = slot)
                            then (nan_plus m.1 total, (m.2 + count)%nat)
                            else metric_variables sess s) sess)
      | None => None
      end
  end.

(** Runs an operation once per element of [batches], in order. *)
Fixpoint run_all (batches : list Feeds) (sess : Session) (op : operation)
    : option Session :=
  match batches with
  | [] => Some sess
  | feeds :: batches' => sess' ← run feeds sess op; run_all batches' sess' op
  end.

End Run.

(** The session of a freshly initialised graph: every integer variable holds
    its initial value, no streaming mean has seen a value, and the layers hold
    what their initializers drew. *)
Definition initial_session (w : World) (drawn : nat -> LayerParams) : Session :=
  {| layer_params := drawn;
     int_variables := var_initial_value <$> variables w;
     metric_variables := fun _ => (Some 0%R, O) |}.

(** ** The framework calls the module makes *)

Definition set_next_placeholder (n : nat) (w : World) : World :=
  {| next_placeholder := n; next_scope := next_scope w;
     next_metric := next_metric w; variables := variables w;
     collections := collections w; summaries := summaries w; log := log w |}.

Definition set_next_scope (n : nat) (w : World) : World :=
  {| next_placeholder := next_placeholder w; next_scope := n;
     next_metric := next_metric w; variables := variables w;
     collections := collections w; summaries := summaries w; log := log w |}.

Definition set_next_metric (n : nat) (w : World) : World :=
  {| next_placeholder := next_placeholder w; next_scope := next_scope w;
     next_metric := n; variables := variables w;
     collections := collections w; summaries := summaries w; log := log w |}.

Definition set_variables (v : list VariableDef) (w : World) : World :=
  {| next_placeholder := next_placeholder w; next_scope := next_scope w;
     next_metric := next_metric w; variables := v;
     collections := collections w; summaries := summaries w; log := log w |}.

Definition set_collections (c : gmap string (list json)) (w : World) : World :=
  {| next_placeholder := next_placeholder w; next_scope := next_scope w;
     next_metric := next_metric w; variables := variables w;
     collections := c; summaries := summaries w; log := log w |}.

Definition set_summaries (s : list (string * tensor)) (w : World) : World :=
  {| next_placeholder := next_placeholder w; next_scope := next_scope w;
     next_metric := next_metric w; variables := variables w;
     collections := collections w; summaries := s; log := log w |}.

Definition set_log (l : list string) (w : World) : World :=
  {| next_placeholder := next_placeholder w; next_scope := next_scope w;
     next_metric := next_metric w; variables := variables w;
     collections := collections w; summaries := summaries w; log := l |}.

(** The entries of a graph collection, in the order they were added. *)
Definition get_collection (name : string) (w : World) : list json :=
  default [] (collections w !! name).

(** [d[key]] on a Python dict: raises KeyError for a missing key. *)
Definition getitem {A} (d : gmap string A) (key : string) : G A :=
  match d !! key with
  | Some a => mret a
  | None => raise
  end.

(** The [name=] arguments of the calls only label nodes and are left out. *)
Module tf.

Definition placeholder (dt : dtype) : G tensor := fun w =>
  Some (Placeholder (next_placeholder w) dt,
        set_next_placeholder (S (next_placeholder w)) w).

(** One output tensor per declared feature. *)
Definition parse_example (serialized : tensor)
    (features : gmap string FixedLenFeature) : gmap string tensor :=
  map_imap (fun k _ => Some (ParseExample serialized features k)) features.

(** [tf.Variable(initial_value, name=name, trainable=trainable)]: appends
    the variable to the graph and returns its handle. *)
Definition Variable' (initial_value : Z) (name : string) (trainable : bool)
    : G tensor := fun w =>
  Some (VariableRef (length (variables w)),
        set_variables (variables w ++
          [{| var_initial_value := initial_value; var_name := name;
              var_trainable := trainable |}]) w).

Definition to_int64 (x : tensor) : tensor := ToInt64 x.
Definition reduce_mean (input : tensor) : tensor := ReduceMean input.
Definition cast (x : tensor) (dt : dtype) : tensor := Cast x dt.
Definition argmax (input : tensor) (dimension : nat) : tensor :=
  ArgMax input dimension.

Definition scalar_summary (tag : string) (t : tensor) : G unit := fun w =>
  Some (tt, set_summaries (summaries w ++ [(tag, t)]) w).

Definition add_to_collection (name : string) (v : json) : G unit := fun w =>
  Some (tt, set_collections
              (<[name := get_collection name w ++ [v]]> (collections w)) w).

Module nn.
Definition softmax (logits : tensor) : tensor := Softmax logits.
Definition in_top_k (predictions targets : tensor) (k : nat) : tensor :=
  InTopK predictions targets k.
Definition sparse_softmax_cross_entropy_with_logits
    (logits labels : tensor) : tensor :=
  SparseSoftmaxCrossEntropyWithLogits logits labels.
End nn.

Module train.
Record GradientDescentOptimizer := { gd_learning_rate : R }.

(** [optimizer.minimize(loss, global_step=global_step)]: raises ValueError
    when the loss has a gradient for no trainable variable.  Every layer a
    tensor of the graph is computed from is a layer of the graph, so the
    layers the loss has a gradient for are among the trainable variables the
    optimizer collects. *)
Definition minimize (optimizer : GradientDescentOptimizer) (loss : tensor)
    (global_step : option tensor) : G operation :=
  match trained_scopes loss with
  | [] => raise
  | _ :: _ => mret (Minimize (gd_learning_rate optimizer) loss global_step)
  end.
End train.

End tf.

Module layers.

(** [fully_connected(inputs, num_outputs, activation_fn=...)]: opens the
    next variable scope for the layer's weights and biases.  Raises
    (ValueError, TypeError) for an input that is no float tensor of rank at
    least 2; of a placeholder, whose node does not record the shape it was
    declared with, only the element type is checked. *)
Definition fully_connected_with (activation_fn : option activation)
    (inputs : tensor) (num_outputs : nat) : G tensor := fun w =>
  if layer_input_ok inputs then
    Some (FullyConnected (next_scope w) inputs num_outputs activation_fn,
          set_next_scope (S (next_scope w)) w)
  else None.

(** [fully_connected(inputs, num_outputs)]: the call with its defaults,
    of which [activation_fn=nn.relu] matters here. *)
Definition fully_connected : tensor -> nat -> G tensor :=
  fully_connected_with (Some Relu).

End layers.

Module metric_ops.

(** [streaming_mean(values)]: allocates total and count and returns the
    tensor reading their ratio and the operation folding a value in. *)
Definition streaming_mean (values : tensor) : G (tensor * operation) := fun w =>
  Some ((StreamingMeanValue (next_metric w),
         StreamingMeanUpdate (next_metric w) values),
        set_next_metric (S (next_metric w)) w).

End metric_ops.

Module logging.
Definition info (msg : string) : G unit := fun w =>
  Some (tt, set_log (log w ++ [msg]) w).
End logging.

Module json_.
Definition dumps (d : gmap string tensor_name) : json := JsonObject d.
End json_.

Definition name (t : tensor) : tensor_name := NameOf t.

(** ** The trainer's util module *)

Module util.

(** Modelled from the spec: util.read_examples, the input reader, is not
    among the sources.  It adds the input-reading stage to the graph and
    returns the keys and the raw batch of serialized examples that stage
    produces; the stage shuffles when [shuffle] is set and repeats its
    input [num_epochs] times, without limit for None. *)
Definition read_examples (data_paths : list string) (batch_size : Z)
    (shuffle : bool) (num_epochs : option Z) : tensor * tensor :=
  let args := {| ra_data_paths := data_paths; ra_batch_size := batch_size;
                 ra_shuffle := shuffle; ra_num_epochs := num_epochs |} in
  (ReaderKeys args, ReaderExamples args).

(** Modelled from the spec: the test util.override_if_not_in_args makes,
    which is not among the sources.  The argument list already gives [flag]
    when it holds it as a token of its own (followed by its value) or as
    [flag=value]. *)
Definition key_present (flag : string) (args : list string) : bool :=
  existsb (fun a => bool_decide (a = flag) || String.prefix (flag +:+ "=") a) args.

(** Modelled from the spec: util.override_if_not_in_args is not among the
    sources.  It injects the default, as the two tokens [flag] and
    [argument], only if [flag] is not already present in the argument
    list; the list is extended in place, which is modelled by returning
    it. *)
Definition override_if_not_in_args (flag argument : string)
    (args : list string) : list string :=
  if key_present flag args then args else args ++ [flag; argument].

End util.

(** ** model.py *)

Record Model := {
  learning_rate : R;
  hidden1 : nat;
  hidden2 : nat
}.

(** Holder of base tensors used for training model using common task. *)
Record GraphReferences := {
  examples : option tensor;
  train : option operation;
  global_step : option tensor;
  metric_updates : list operation;
  metric_values : list tensor;
  keys : option tensor;
  predictions : list tensor
}.

(** [GraphReferences.__init__]. *)
Definition GraphReferences_init : GraphReferences :=
  {| examples := None; train := None; global_step := None;
     metric_updates := []; metric_values := []; keys := None;
     predictions := [] |}.

Definition set_examples (x : option tensor) (t : GraphReferences) :=
  {| examples := x; train := train t; global_step := global_step t;
     metric_updates := metric_updates t; metric_values := metric_values t;
     keys := keys t; predictions := predictions t |}.

Definition set_train (x : option operation) (t : GraphReferences) :=
  {| examples := examples t; train := x; global_step := global_step t;
     metric_updates := metric_updates t; metric_values := metric_values t;
     keys := keys t; predictions := predictions t |}.

Definition set_global_step (x : option tensor) (t : GraphReferences) :=
  {| examples := examples t; train := train t; global_step := x;
     metric_updates := metric_updates t; metric_values := metric_values t;
     keys := keys t; predictions := predictions t |}.

Definition set_metric_updates (x : list operation) (t : GraphReferences) :=
  {| examples := examples t; train := train t; global_step := global_step t;
     metric_updates := x; metric_values := metric_values t;
     keys := keys t; predictions := predictions t |}.

Definition set_metric_values (x : list tensor) (t : GraphReferences) :=
  {| examples := examples t; train := train t; global_step := global_step t;
     metric_updates := metric_updates t; metric_values := x;
     keys := keys t; predictions := predictions t |}.

Definition parse_examples (examples : tensor) : gmap string tensor :=
  let feature_map : gmap string FixedLenFeature :=
    {[ "labels" := {| fl_shape := []; fl_dtype := DT_INT64;
                      fl_default_value := Some (Int64List [-1]) |};
       "images" := {| fl_shape := [IMAGE_PIXELS]; fl_dtype := DT_FLOAT;
                      fl_default_value := None |} ]} in
  tf.parse_example examples feature_map.

(** Build the MNIST model up to where it may be used for inference. *)
Definition inference (images : tensor) (hidden1_units hidden2_units : nat)
    : G tensor :=
  hidden1 ← layers.fully_connected images hidden1_units;
  hidden2 ← layers.fully_connected hidden1 hidden2_units;
  layers.fully_connected hidden2 NUM_CLASSES.

(** Calculates the loss from the logits and the labels. *)
Definition loss (logits labels : tensor) : tensor :=
  let labels := tf.to_int64 labels in
  let cross_entropy :=
    tf.nn.sparse_softmax_cross_entropy_with_logits logits labels in
  tf.reduce_mean cross_entropy.

(** Sets up the training Ops; returns the Op for training and the global
    step. *)
Definition training (loss_op : tensor) (learning_rate : R)
    : G (operation * tensor) :=
  let optimizer := {| tf.train.gd_learning_rate := learning_rate |} in
  global_step ← tf.Variable' 0 "global_step" false;
  train_op ← tf.train.minimize optimizer loss_op (Some global_step);
  mret (train_op, global_step).

(** Evaluate the quality of the logits at predicting the label. *)
Definition evaluation (logits labels : tensor) : tensor :=
  let correct := tf.nn.in_top_k logits labels 1 in
  tf.reduce_mean (tf.cast correct DT_FLOAT).

(** Builds generic graph for training or eval. *)
Definition build_graph (self : Model) (data_paths : list string)
    (batch_size : Z) (is_training : bool) : G GraphReferences :=
  let tensors := GraphReferences_init in
  let '(_, examples) :=
    util.read_examples data_paths batch_size is_training
      (if is_training then None else Some 2) in
  let tensors := set_examples (Some examples) tensors in
  let parsed := parse_examples examples in
  images ← getitem parsed "images";
  logits ← inference images (hidden1 self) (hidden2 self);
  labels ← getitem parsed "labels";
  let loss_value := loss logits labels in
  let accuracy_value := evaluation logits labels in
  tensors ← (if is_training
             then '(train_op, step) ← training loss_value (learning_rate self);
                  mret (set_global_step (Some step)
                          (set_train (Some train_op) tensors))
             else step ← tf.Variable' 0 "global_step" false;
                  mret (set_global_step (Some step) tensors));
  '(loss_op, loss_update) ← metric_ops.streaming_mean loss_value;
  '(accuracy_op, accuracy_update) ← metric_ops.streaming_mean accuracy_value;
  tf.scalar_summary "accuracy" accuracy_op;;
  tf.scalar_summary "loss" loss_op;;
  let tensors := set_metric_updates [loss_update; accuracy_update] tensors in
  let tensors := set_metric_values [loss_op; accuracy_op] tensors in
  mret tensors.

Definition build_train_graph (self : Model) (data_paths : list string)
    (batch_size : Z) : G GraphReferences :=
  build_graph self data_paths batch_size true.

Definition build_eval_graph (self : Model) (data_paths : list string)
    (batch_size : Z) : G GraphReferences :=
  build_graph self data_paths batch_size false.

(** Builds prediction graph and registers appropriate endpoints.  The Python
    method ends without a return statement: it returns None, the unit
    value. *)
Definition build_prediction_graph (self : Model) (export_dir : string) : G unit :=
  logging.info ("Exporting prediction graph to " +:+ export_dir);;
  examples ← tf.placeholder DT_STRING;
  let features : gmap string FixedLenFeature :=
    {[ "image" := {| fl_shape := [IMAGE_PIXELS]; fl_dtype := DT_FLOAT;
                     fl_default_value := None |};
       "key" := {| fl_shape := []; fl_dtype := DT_STRING;
                   fl_default_value := None |} ]} in
  let parsed := tf.parse_example examples features in
  images ← getitem parsed "image";
  keys ← getitem parsed "key";
  logits ← inference images (hidden1 self) (hidden2 self);
  let softmax := tf.nn.softmax logits in
  let prediction := tf.argmax softmax 1 in
  tf.add_to_collection "inputs"
    (json_.dumps {[ "examples_bytes" := name examples ]});;
  tf.add_to_collection "outputs"
    (json_.dumps {[ "key" := name keys;
                    "prediction" := name prediction;
                    "scores" := name softmax ]}).

(** *** The model factory *)

Module argparse.

Inductive arg_type := float.

(** [parser.add_argument(option_string, type=..., default=...)]. *)
Record Argument := {
  option_string : string;
  type : arg_type;
  default : R
}.

(** The attribute of the namespace an option is stored under: the option
    string without its leading dashes. *)
Definition dest (a : Argument) : string :=
  match option_string a with
  | String "-"%char (String "-"%char d) => d
  | d => d
  end.

(** What [parse_known_args] returns when no argument matches an option of
    the parser: every option keeps its default and all arguments are left
    over. *)
Definition parse_nothing (parser : list Argument) (args : list string)
    : option (gmap string R * list string) :=
  Some (list_to_map ((fun a => (dest a, default a)) <$> parser), args).

End argparse.

(** The parser [create_model] sets up. *)
Definition create_model_parser : list argparse.Argument :=
  [] ++ [{| argparse.option_string := "--learning_rate";
            argparse.type := argparse.float;
            argparse.default := 0.01%R |}].

(** The defaults [create_model] injects, in the order of the calls. *)
Definition task_defaults : list (string * string) :=
  [("--max_steps", "5000"); ("--batch_size", "100");
   ("--eval_set_size", "10000"); ("--eval_interval_secs", "1");
   ("--log_interval_secs", "1"); ("--min_train_eval_rate", "1")].

Section Factory.

(** [parser.parse_known_args()] of the argparse library, given the declared
    options and the arguments of the process: the namespace of option values
    and the arguments it did not recognise, or None when it ends the process
    (a value that is no float, a request for help). *)
Variable parse_known_args :
  list argparse.Argument -> list string -> option (gmap string R * list string).

(** Factory method that creates model to be used by generic task.py. *)
Definition create_model (sys_argv : list string) : option (Model * list string) :=
  let parser := create_model_parser in
  '(args, task_args) ← parse_known_args parser (tail sys_argv);
  let task_args := util.override_if_not_in_args "--max_steps" "5000" task_args in
  let task_args := util.override_if_not_in_args "--batch_size" "100" task_args in
  let task_args := util.override_if_not_in_args "--eval_set_size" "10000" task_args in
  let task_args := util.override_if_not_in_args "--eval_interval_secs" "1" task_args in
  let task_args := util.override_if_not_in_args "--log_interval_secs" "1" task_args in
  let task_args := util.override_if_not_in_args "--min_train_eval_rate" "1" task_args in
  learning_rate ← args !! "learning_rate";
  Some ({| learning_rate := learning_rate; hidden1 := HIDDEN1; hidden2 := HIDDEN2 |},
        task_args).

End Factory.

(** *** Formatting helpers *)

(** A Python float is a rational number; ['%.3f'] prints the decimal with
    three fractional digits nearest to it, ties to the even one. *)

Definition round_half_even (q : Q) : Z :=
  let f := Qfloor q in
  match (q - inject_Z f ?= 1 # 2)%Q with
  | Lt => f
  | Gt => f + 1
  | Eq => if Z.even f then f else f + 1
  end.

Definition decimal (n : Z) : string :=
  NilZero.string_of_uint (N.to_uint (Z.to_N n)).

Definition digit (d : Z) : string :=
  String (Ascii.ascii_of_N (48 + Z.to_N d)) "".

(** The thousandths nearest to [|x|]. *)
Definition thousandths (x : Q) : Z := round_half_even (Qabs x * 1000).

(** ['%.3f' % x]. *)
Definition format_3f (x : Q) : string :=
  let n := thousandths x in
  (if Qlt_le_dec x 0 then "-" else "") +:+ decimal (n / 1000) +:+ "." +:+
  digit (n / 100 mod 10) +:+ digit (n / 10 mod 10) +:+ digit (n mod 10).

(** Formats metric values - used for logging purpose.  None: IndexError. *)
Definition format_metric_values (metric_values : list Q) : option string :=
  v0 ← metric_values !! 0%nat;
  v1 ← metric_values !! 1%nat;
  Some ("loss: " +:+ format_3f v0 +:+ ", accuracy: " +:+ format_3f v1).

(** Formats prediction values - used for writing batch predictions as csv. *)
Definition format_prediction_values (prediction : list Q) : option string :=
  v0 ← prediction !! 0%nat;
  Some (format_3f v0).

(** The doubles the literals 0.1234, 0.9876 and 3.14159 denote. *)
Definition double_0_1234 : Q := 8891907104280307 # 72057594037927936.
Definition double_0_9876 : Q := 2223877495995551 # 2251799813685248.
Definition double_3_14159 : Q := 3537115888337719 # 1125899906842624.

(** ** Names used in the statements *)

(** The tensor [inference] returns when the next free variable scope is
    [scope]. *)
Definition inference_tensor (scope : nat) (images : tensor) (h1 h2 : nat) : tensor :=
  FullyConnected (S (S scope))
    (FullyConnected (S scope)
       (FullyConnected scope images h1 (Some Relu)) h2 (Some Relu))
    NUM_CLASSES (Some Relu).

(** The step counter both modes of [build_graph] declare. *)
Definition step_counter : VariableDef :=
  {| var_initial_value := 0; var_name := "global_step"; var_trainable := false |}.

(** The reader call of [build_graph] in each mode. *)
Definition reader_call (data_paths : list string) (batch_size : Z)
    (is_training : bool) : ReaderArgs :=
  {| ra_data_paths := data_paths; ra_batch_size := batch_size;
     ra_shuffle := is_training;
     ra_num_epochs := if is_training then None else Some 2 |}.

Definition is_optimizer_step (op : operation) : bool :=
  match op with
  | Minimize _ _ _ => true
  | StreamingMeanUpdate _ _ => false
  end.

(** The features [parse_examples] declares. *)
Definition training_features : gmap string FixedLenFeature :=
  {[ "labels" := {| fl_shape := []; fl_dtype := DT_INT64;
                    fl_default_value := Some (Int64List [-1]) |};
     "images" := {| fl_shape := [IMAGE_PIXELS]; fl_dtype := DT_FLOAT;
                    fl_default_value := None |} ]}.

(** The features [build_prediction_graph] declares. *)
Definition prediction_features : gmap string FixedLenFeature :=
  {[ "image" := {| fl_shape := [IMAGE_PIXELS]; fl_dtype := DT_FLOAT;
                   fl_default_value := None |};
     "key" := {| fl_shape := []; fl_dtype := DT_STRING;
                 fl_default_value := None |} ]}.

(** What [build_graph] returns from state [w], field by field. *)
Definition graph_references_of (self : Model) (data_paths : list string)
    (batch_size : Z) (is_training : bool) (w : World) : GraphReferences :=
  let examples := ReaderExamples (reader_call data_paths batch_size is_training) in
  let images := ParseExample examples training_features "images" in
  let labels := ParseExample examples training_features "labels" in
  let logits := inference_tensor (next_scope w) images (hidden1 self) (hidden2 self) in
  let step := VariableRef (length (variables w)) in
  {| examples := Some examples;
     train := if is_training
              then Some (Minimize (learning_rate self) (loss logits labels) (Some step))
              else None;
     global_step := Some step;
     metric_updates :=
       [StreamingMeanUpdate (next_metric w) (loss logits labels);
        StreamingMeanUpdate (S (next_metric w)) (evaluation logits labels)];
     metric_values :=
       [StreamingMeanValue (next_metric w); StreamingMeanValue (S (next_metric w))];
     keys := None;
     predictions := [] |}.

(** A well-formed training record: an "images" feature of 784 floats and a
    "labels" feature that is absent or holds one integer. *)
Definition well_formed_record (ex : Example) : Prop :=
  (∃ img, ex !! "images" = Some (FloatList img) ∧ length img = IMAGE_PIXELS) ∧
  (ex !! "labels" = None ∨ ∃ l, ex !! "labels" = Some (Int64List [l])).

(** The image a record encodes. *)
Definition image_of (ex : Example) : list R :=
  match ex !! "images" with
  | Some f => floats_of f
  | None => []
  end.

(** The label a record encodes, if it has one. *)
Definition label_of (ex : Example) : option Z :=
  match ex !! "labels" with
  | Some (Int64List [l]) => Some l
  | _ => None
  end.

(** The score of the true label is the unique maximum of the row. *)
Definition true_label_unique_max (row : list R) (label : Z) : Prop :=
  ∃ x, row !! Z.to_nat label = Some x ∧
       ∀ j y, j ≠ Z.to_nat label → row !! j = Some y → (y < x)%R.

(** The score of the true label is not a maximum of the row: some score is
    larger. *)
Definition true_label_not_max (row : list R) (label : Z) : Prop :=
  ∃ x, row !! Z.to_nat label = Some x ∧ ∃ y, y ∈ row ∧ (x < y)%R.

(** The softmax probability a row of logits gives to a class. *)
Definition true_class_probability (row : list R) (label : Z) : option R :=
  softmax_row row !! Z.to_nat label.

(** The network of [inference] with a last layer that applies no activation:
    the layer the docstring's [softmax_linear] names. *)
Definition linear_output_tensor (scope : nat) (images : tensor) (h1 h2 : nat)
    : tensor :=
  FullyConnected (S (S scope))
    (FullyConnected (S scope)
       (FullyConnected scope images h1 (Some Relu)) h2 (Some Relu))
    NUM_CLASSES None.

(** A graph nothing has been added to. *)
Definition empty_world : World :=
  {| next_placeholder := 0; next_scope := 0; next_metric := 0;
     variables := []; collections := ∅; summaries := []; log := [] |}.

(** A batch of one image: the first pixel is 1, the other 783 are 0. *)
Definition one_pixel_image : list R := 1%R :: repeat 0%R 783.

(** Layer variables within the range of their initializers: every weight of
    the first layer is 1/20, of the second 1/2, of the output layer -1/2, and
    every bias is 0. *)
Definition small_params (scope : nat) : LayerParams :=
  {| weights := fun _ _ => match scope with
                           | O => (1 / 20)%R
                           | S O => (1 / 2)%R
                           | _ => (- 1 / 2)%R
                           end;
     biases := fun _ => 0%R |}.

Definition feed_placeholder_0 (v : value) : Feeds :=
  {| feed_dict := fun id => match id with O => Some v | _ => None end;
     reader_batch := None |}.

(** The defaults an argument list lacks, as the tokens injected for them. *)
Definition missing_defaults (defaults : list (string * string))
    (args : list string) : list string :=
  flat_map (fun d => if util.key_present d.1 args then [] else [d.1; d.2]) defaults.

(** Injects a list of defaults one after the other. *)
Definition inject_defaults (defaults : list (string * string))
    (args : list string) : list string :=
  fold_left (fun a d => util.override_if_not_in_args d.1 d.2 a) defaults args.

(** No default's tokens make a later default's key present. *)
Fixpoint independent (defaults : list (string * string)) : bool :=
  match defaults with
  | [] => true
  | d :: rest =>
      forallb (fun d' => negb (util.key_present d'.1 [d.1; d.2])) rest
      && independent rest
  end.

(** ** Sample inputs *)

(** Feeds logits to placeholder 0 and labels to placeholder 1. *)
Definition feed_logits_labels (m : list (list R)) (ls : list Z) : Feeds :=
  {| feed_dict := fun id => match id with
                            | O => Some (VFloat2 m)
                            | S O => Some (VInt1 ls)
                            | _ => None
                            end;
     reader_batch := None |}.

(** One row of logits whose largest entry is at class 3. *)
Definition peak_at_3 : list R :=
  [0; 0; 0; 1; 0; 0; 0; 0; 0; 0]%R.

(** One row of ten equal logits. *)
Definition flat_logits : list R := repeat 0%R 10.

(** A record with an all-zero image and label 7, and one with an all-one
    image and no label. *)
Definition labelled_record : Example :=
  {[ "images" := FloatList (repeat 0%R 784); "labels" := Int64List [7] ]}.
Definition unlabelled_record : Example :=
  {[ "images" := FloatList (repeat 1%R 784) ]}.

Definition feed_reader (records : list Example) : Feeds :=
  {| feed_dict := fun _ => None; reader_batch := Some ([], records) |}.

(** Gradients that are zero everywhere. *)
Definition zero_gradients (_ : Feeds) (_ : Session) (_ : tensor) (_ : nat)
    : LayerParams :=
  {| weights := fun _ _ => 0%R; biases := fun _ => 0%R |}.

(** Every completed run of the train op leaves its step counter exactly 1
    higher, whatever the counter holds. *)
Definition counts_every_run
    (gradients : Feeds -> Session -> tensor -> nat -> LayerParams)
    (train_op : operation) (step : tensor) : Prop :=
  ∀ feeds sess sess' n,
    eval feeds sess step = Some (VInt0 n) →
    run gradients feeds sess train_op = Some sess' →
    eval feeds sess' step = Some (VInt0 (n + 1)).

(** The tensors [build_graph] passes on when the reader is called for one
    training file, the graph holding the three layers of [inference] and
    nothing else, and the loss on that graph. *)
Definition sample_examples : tensor := ReaderExamples (reader_call ["train"] 1 true).
Definition sample_images : tensor :=
  ParseExample sample_examples training_features "images".
Definition sample_labels : tensor :=
  ParseExample sample_examples training_features "labels".
Definition sample_logits : tensor :=
  inference_tensor 0 sample_images HIDDEN1 HIDDEN2.
Definition sample_loss : tensor := loss sample_logits sample_labels.
Definition world_with_layers : World := set_next_scope 3 empty_world.

(** A session whose only integer variable holds the largest signed 32-bit
    integer. *)
Definition session_at_int32_max : Session :=
  {| layer_params := small_params; int_variables := [2147483647];
     metric_variables := fun _ => (Some 0%R, O) |}.

(** A session that holds a second integer variable and streaming means that
    have seen values. *)
Definition busy_session : Session :=
  {| layer_params := small_params; int_variables := [0; 41];
     metric_variables := fun _ => (Some 3%R, 2%nat) |}.

(** ** Names used in the further statements *)

(** The score of the true label is a maximum of the row, ties included. *)
Definition true_label_is_max (row : list R) (label : Z) : Prop :=
  ∃ x, row !! Z.to_nat label = Some x ∧ ∀ y, y ∈ row → (y <= x)%R.

(** Adds [c] to every logit of a row. *)
Definition shift_row (c : R) (row : list R) : list R :=
  (fun x => (x + c)%R) <$> row.

(** The number of true entries. *)
Definition count_true (bs : list bool) : nat :=
  length (filter (fun b => b = true) bs).

(** A well-formed prediction record: an "image" feature of 784 floats and a
    "key" feature holding one string. *)
Definition well_formed_prediction_record (ex : Example) : Prop :=
  (∃ img, ex !! "image" = Some (FloatList img) ∧ length img = IMAGE_PIXELS) ∧
  (∃ k, ex !! "key" = Some (BytesList [k])).

(** A row of scores is a probability distribution. *)
Definition is_distribution (row : list R) : Prop :=
  Forall (fun p => (0 < p)%R) row ∧ Rsum row = 1%R.

(** [p] is the index of a largest entry of the row. *)
Definition is_argmax (row : list R) (p : Z) : Prop :=
  0 <= p < Z.of_nat (length row) ∧
  ∃ x, row !! Z.to_nat p = Some x ∧ ∀ y, y ∈ row → (y <= x)%R.

(** The integer variables a tensor reads. *)
Fixpoint variable_refs (t : tensor) : list nat :=
  match t with
  | VariableRef i => [i]
  | Placeholder _ _ | ReaderKeys _ | ReaderExamples _ | StreamingMeanValue _ => []
  | ParseExample x _ _ | FullyConnected _ x _ _ | Softmax x | ArgMax x _
  | ToInt64 x | ReduceMean x | Cast x _ => variable_refs x
  | SparseSoftmaxCrossEntropyWithLogits x y | InTopK x y _ =>
      variable_refs x ++ variable_refs y
  end.

(** The streaming means a tensor reads. *)
Fixpoint metric_slots (t : tensor) : list nat :=
  match t with
  | StreamingMeanValue slot => [slot]
  | Placeholder _ _ | ReaderKeys _ | ReaderExamples _ | VariableRef _ => []
  | ParseExample x _ _ | FullyConnected _ x _ _ | Softmax x | ArgMax x _
  | ToInt64 x | ReduceMean x | Cast x _ => metric_slots x
  | SparseSoftmaxCrossEntropyWithLogits x y | InTopK x y _ =>
      metric_slots x ++ metric_slots y
  end.

(** The variable scopes of the fully connected layers a tensor is computed
    from. *)
Fixpoint layer_scopes (t : tensor) : list nat :=
  match t with
  | Placeholder _ _ | ReaderKeys _ | ReaderExamples _ | VariableRef _
  | StreamingMeanValue _ => []
  | FullyConnected scope x _ _ => scope :: layer_scopes x
  | ParseExample x _ _ | Softmax x | ArgMax x _
  | ToInt64 x | ReduceMean x | Cast x _ => layer_scopes x
  | SparseSoftmaxCrossEntropyWithLogits x y | InTopK x y _ =>
      layer_scopes x ++ layer_scopes y
  end.

Section RunMany.

Variable gradients : Feeds -> Session -> tensor -> nat -> LayerParams.

(** Runs the operations of a list on one batch, in order. *)
Fixpoint run_each (feeds : Feeds) (sess : Session) (ops : list operation)
    : option Session :=
  match ops with
  | [] => Some sess
  | op :: ops' => sess' ← run gradients feeds sess op; run_each feeds sess' ops'
  end.

(** Runs the operations of a list on every batch, batch after batch. *)
Fixpoint run_batches (batches : list Feeds) (sess : Session)
    (ops : list operation) : option Session :=
  match batches with
  | [] => Some sess
  | feeds :: batches' =>
      sess' ← run_each feeds sess ops; run_batches batches' sess' ops
  end.

End RunMany.

(** The tensor an operation evaluates when it runs. *)
Definition op_tensor (op : operation) : tensor :=
  match op with
  | Minimize _ loss _ => loss
  | StreamingMeanUpdate _ values => values
  end.

(** The operations a [GraphReferences] holds. *)
Definition ops_of (refs : GraphReferences) : list operation :=
  option_list (train refs) ++ metric_updates refs.

(** What running an operation writes: the layers it trains, the integer
    variable it increments, the streaming mean it updates. *)
Definition written_scopes (op : operation) : list nat :=
  match op with
  | Minimize _ loss _ => trained_scopes loss
  | StreamingMeanUpdate _ _ => []
  end.

Definition written_variables (op : operation) : list nat :=
  match op with
  | Minimize _ _ (Some (VariableRef i)) => [i]
  | _ => []
  end.

Definition written_slots (op : operation) : list nat :=
  match op with
  | StreamingMeanUpdate slot _ => [slot]
  | Minimize _ _ _ => []
  end.

(** A change of the session that the graph of [refs] cannot observe: on
    every batch its metric values, its step counter and the tensors its
    operations evaluate (loss and accuracy) are what they were. *)
Definition graph_state_unchanged (refs : GraphReferences) (sess sess' : Session)
    : Prop :=
  ∀ feeds,
    (∀ t, t ∈ metric_values refs → eval feeds sess' t = eval feeds sess t) ∧
    (∀ t, global_step refs = Some t → eval feeds sess' t = eval feeds sess t) ∧
    (∀ op, op ∈ ops_of refs →
           eval feeds sess' (op_tensor op) = eval feeds sess (op_tensor op)).

(** ** Further sample inputs *)

(** Feeds logits to placeholder 0, labels to placeholder 1 and a second
    matrix of logits to placeholder 2. *)
Definition feed_two_logits (m : list (list R)) (ls : list Z)
    (m' : list (list R)) : Feeds :=
  {| feed_dict := fun id => match id with
                            | O => Some (VFloat2 m)
                            | S O => Some (VInt1 ls)
                            | S (S O) => Some (VFloat2 m')
                            | _ => None
                            end;
     reader_batch := None |}.

(** A prediction record with an all-zero image and the key "first". *)
Definition prediction_record : Example :=
  {[ "image" := FloatList (repeat 0%R 784); "key" := BytesList ["first"] ]}.

(** The model [create_model] returns by default. *)
Definition default_model : Model :=
  {| learning_rate := 0.01%R; hidden1 := HIDDEN1; hidden2 := HIDDEN2 |}.

(** * Properties *)

(** ** Graph construction *)

Lemma inference_run images h1 h2 w :
  layer_input_ok images = true →
  inference images h1 h2 w =
  Some (inference_tensor (next_scope w) images h1 h2,
        set_next_scope (S (S (S (next_scope w)))) w).
Proof.
  intros Hok. unfold inference, layers.fully_connected.
  unfold mbind, G_bind, layers.fully_connected_with.
  rewrite Hok.
  change (layer_input_ok (FullyConnected (next_scope w) images h1 (Some Relu)))
    with (layer_input_ok images).
  rewrite Hok.
  change (layer_input_ok (FullyConnected _ (FullyConnected _ images _ _) _ _))
    with (layer_input_ok images).
  rewrite Hok. reflexivity.
Qed.

Lemma inference_raises images h1 h2 w :
  layer_input_ok images = false → inference images h1 h2 w = None.
Proof.
  intros Hno. unfold inference, layers.fully_connected.
  unfold mbind, G_bind, layers.fully_connected_with.
  rewrite Hno. reflexivity.
Qed.

Lemma parse_examples_eq examples :
  parse_examples examples = tf.parse_example examples training_features.
Proof. reflexivity. Qed.

Lemma build_graph_run self data_paths batch_size is_training w :
  build_graph self data_paths batch_size is_training w =
  Some (graph_references_of self data_paths batch_size is_training w,
        set_summaries
          ((summaries w ++ [("accuracy", StreamingMeanValue (S (next_metric w)))])
             ++ [("loss", StreamingMeanValue (next_metric w))])
          (set_next_metric (S (S (next_metric w)))
             (set_variables (variables w ++ [step_counter])
                (set_next_scope (S (S (S (next_scope w)))) w)))).
Proof. destruct is_training; reflexivity. Qed.

Lemma training_run loss_op lr w :
  trained_scopes loss_op ≠ [] →
  training loss_op lr w =
  Some ((Minimize lr loss_op (Some (VariableRef (length (variables w)))),
         VariableRef (length (variables w))),
        set_variables (variables w ++ [step_counter]) w).
Proof.
  intros Hne. unfold training, tf.train.minimize.
  destruct (trained_scopes loss_op); [done|reflexivity].
Qed.

Lemma training_raises loss_op lr w :
  trained_scopes loss_op = [] → training loss_op lr w = None.
Proof.
  intros Hnil. unfold training, tf.train.minimize. rewrite Hnil. reflexivity.
Qed.

(** C7. [build_graph] calls the input reader with shuffling and without an
    epoch limit when training, and without shuffling and with 2 epochs when
    evaluating.  When training, the train op and the global step are the pair
    [training] returns for the loss; when evaluating, the global step is a
    fresh non-trainable variable initialised to 0, no optimizer step is among
    the returned operations and [train] is still None.  In both modes [keys]
    is None and [predictions] is the empty list. *)
Theorem build_graph_modes (self : Model) (data_paths : list string)
    (batch_size : Z) (w : World) :
  (∃ refs w' batch images labels,
     build_graph self data_paths batch_size true w = Some (refs, w') ∧
     batch = (util.read_examples data_paths batch_size true None).2 ∧
     batch = ReaderExamples
               {| ra_data_paths := data_paths; ra_batch_size := batch_size;
                  ra_shuffle := true; ra_num_epochs := None |} ∧
     examples refs = Some batch ∧
     parse_examples batch !! "images" = Some images ∧
     parse_examples batch !! "labels" = Some labels ∧
     (∃ train_op step w2,
        training (loss (inference_tensor (next_scope w) images
                          (hidden1 self) (hidden2 self)) labels)
                 (learning_rate self)
                 (set_next_scope (S (S (S (next_scope w)))) w)
          = Some ((train_op, step), w2) ∧
        train refs = Some train_op ∧ global_step refs = Some step) ∧
     variables w' = variables w ++ [step_counter] ∧
     keys refs = None ∧ predictions refs = []) ∧
  (∃ refs w' batch,
     build_graph self data_paths batch_size false w = Some (refs, w') ∧
     batch = (util.read_examples data_paths batch_size false (Some 2)).2 ∧
     batch = ReaderExamples
               {| ra_data_paths := data_paths; ra_batch_size := batch_size;
                  ra_shuffle := false; ra_num_epochs := Some 2 |} ∧
     examples refs = Some batch ∧
     global_step refs = Some (VariableRef (length (variables w))) ∧
     variables w' = variables w ++ [step_counter] ∧
     step_counter = {| var_initial_value := 0; var_name := "global_step";
                       var_trainable := false |} ∧
     train refs = None ∧
     forallb (fun op => negb (is_optimizer_step op)) (metric_updates refs) = true ∧
     keys refs = None ∧ predictions refs = []).
Proof.
  split.
  - set (ex := ReaderExamples (reader_call data_paths batch_size true)).
    exists (graph_references_of self data_paths batch_size true w).
    eexists. exists ex.
    exists (ParseExample ex training_features "images").
    exists (ParseExample ex training_features "labels").
    split; [apply build_graph_run|].
    repeat (split; [reflexivity|]).
    split; [|repeat split; reflexivity].
    eexists _, _, _.
    split; [apply training_run; discriminate|]. split; reflexivity.
  - exists (graph_references_of self data_paths batch_size false w).
    eexists. exists (ReaderExamples (reader_call data_paths batch_size false)).
    split; [apply build_graph_run|]. repeat split; reflexivity.
Qed.

Lemma parse_example_lookup serialized features key spec :
  features !! key = Some spec →
  tf.parse_example serialized features !! key =
  Some (ParseExample serialized features key).
Proof.
  intros H. unfold tf.parse_example. rewrite map_lookup_imap, H. reflexivity.
Qed.

Lemma parse_example_dom serialized features :
  dom (tf.parse_example serialized features) = dom features.
Proof.
  apply set_eq. intros k. rewrite !elem_of_dom. unfold tf.parse_example.
  rewrite map_lookup_imap. destruct (features !! k); cbn.
  - split; eauto.
  - split; intros [? ?]; discriminate.
Qed.

Lemma build_prediction_graph_run self export_dir w :
  let examples := Placeholder (next_placeholder w) DT_STRING in
  let image := ParseExample examples prediction_features "image" in
  let key := ParseExample examples prediction_features "key" in
  let logits := inference_tensor (next_scope w) image (hidden1 self) (hidden2 self) in
  let w1 := set_next_scope (S (S (S (next_scope w))))
              (set_next_placeholder (S (next_placeholder w))
                 (set_log (log w ++ ["Exporting prediction graph to " +:+ export_dir]) w)) in
  let w2 := set_collections
              (<["inputs" := get_collection "inputs" w1 ++
                   [JsonObject {[ "examples_bytes" := NameOf examples ]}]]>
                 (collections w1)) w1 in
  build_prediction_graph self export_dir w =
  Some (tt, set_collections
              (<["outputs" := get_collection "outputs" w2 ++
                   [JsonObject {[ "key" := NameOf key;
                                  "prediction" := NameOf (ArgMax (Softmax logits) 1);
                                  "scores" := NameOf (Softmax logits) ]}]]>
                 (collections w2)) w2).
Proof. reflexivity. Qed.

(** C8. [build_prediction_graph] adds one entry to the collection "inputs",
    the mapping with the single key "examples_bytes" bound to the name of the
    placeholder of raw records, and one entry to the collection "outputs",
    the mapping with the three keys "key", "prediction" and "scores" bound to
    the names of the parsed key, of the arg-max over the classes of the
    softmax of the inference logits, and of that softmax.  No other
    collection changes. *)
Theorem build_prediction_graph_endpoints (self : Model) (export_dir : string)
    (w : World) :
  let examples := Placeholder (next_placeholder w) DT_STRING in
  let image := ParseExample examples prediction_features "image" in
  let key := ParseExample examples prediction_features "key" in
  let inputs : gmap string tensor_name :=
    {[ "examples_bytes" := NameOf examples ]} in
  let w1 := set_next_placeholder (S (next_placeholder w))
              (set_log (log w ++ ["Exporting prediction graph to " +:+ export_dir]) w) in
  ∃ w' logits (outputs : gmap string tensor_name),
    build_prediction_graph self export_dir w = Some (tt, w') ∧
    result (tf.placeholder DT_STRING) w = Some examples ∧
    tf.parse_example examples prediction_features !! "image" = Some image ∧
    tf.parse_example examples prediction_features !! "key" = Some key ∧
    result (inference image (hidden1 self) (hidden2 self)) w1 = Some logits ∧
    outputs = {[ "key" := NameOf key;
                 "prediction" := NameOf (ArgMax (Softmax logits) 1);
                 "scores" := NameOf (Softmax logits) ]} ∧
    get_collection "inputs" w' = get_collection "inputs" w ++ [JsonObject inputs] ∧
    get_collection "outputs" w' = get_collection "outputs" w ++ [JsonObject outputs] ∧
    dom inputs = {[ "examples_bytes" ]} ∧
    dom outputs = {[ "key"; "prediction"; "scores" ]} ∧
    (∀ c, c ≠ "inputs" → c ≠ "outputs" →
          get_collection c w' = get_collection c w).
Proof.
  intros examples image key inputs w1.
  eexists _, _, _.
  split; [apply build_prediction_graph_run|].
  split; [reflexivity|].
  split; [eapply parse_example_lookup; reflexivity|].
  split; [eapply parse_example_lookup; reflexivity|].
  split; [reflexivity|]. split; [reflexivity|].
  unfold get_collection;
    cbn [collections set_collections set_next_scope set_next_placeholder set_log].
  split; [|split; [|split; [|split]]].
  - rewrite lookup_insert_ne by done. rewrite lookup_insert_eq. reflexivity.
  - rewrite lookup_insert_eq. rewrite lookup_insert_ne by done. reflexivity.
  - subst inputs. rewrite dom_singleton_L. reflexivity.
  - rewrite !dom_insert_L, dom_singleton_L. set_solver.
  - intros c Hi Ho. rewrite !lookup_insert_ne by done. reflexivity.
Qed.

(** C10. For every model, export directory and graph state,
    [build_prediction_graph] returns None (the unit value) and no tensor
    handle, whereas [build_train_graph] and [build_eval_graph] return a
    [GraphReferences] holding the input batch, the global step, two metric
    updates and two metric values (and the train op when training).  What
    [build_prediction_graph] leaves behind is one log line, the nodes of its
    graph (one placeholder, three layer scopes) and, for its caller to find
    them, one entry in each of the collections "inputs" and "outputs": it
    declares no step counter, no summary and no metric and touches no other
    collection. *)
Theorem build_prediction_graph_returns_none (self : Model) (export_dir : string)
    (data_paths : list string) (batch_size : Z) (w : World) :
  result (build_prediction_graph self export_dir) w = Some tt ∧
  (∃ refs, result (build_train_graph self data_paths batch_size) w = Some refs ∧
           is_Some (examples refs) ∧ is_Some (train refs) ∧
           is_Some (global_step refs) ∧
           length (metric_updates refs) = 2%nat ∧
           length (metric_values refs) = 2%nat) ∧
  (∃ refs, result (build_eval_graph self data_paths batch_size) w = Some refs ∧
           is_Some (examples refs) ∧ is_Some (global_step refs) ∧
           length (metric_updates refs) = 2%nat ∧
           length (metric_values refs) = 2%nat) ∧
  (∃ w', final (build_prediction_graph self export_dir) w = Some w' ∧
         log w' = log w ++ ["Exporting prediction graph to " +:+ export_dir] ∧
         next_placeholder w' = S (next_placeholder w) ∧
         next_scope w' = S (S (S (next_scope w))) ∧
         variables w' = variables w ∧ summaries w' = summaries w ∧
         next_metric w' = next_metric w ∧
         length (get_collection "inputs" w') = S (length (get_collection "inputs" w)) ∧
         length (get_collection "outputs" w') = S (length (get_collection "outputs" w)) ∧
         ∀ c, c ≠ "inputs" → c ≠ "outputs" →
              get_collection c w' = get_collection c w).
Proof.
  unfold result, final, build_train_graph, build_eval_graph.
  rewrite build_prediction_graph_run, !build_graph_run.
  cbn [fmap option_fmap option_map fst snd].
  split; [reflexivity|].
  split; [eexists; split; [reflexivity|]; repeat split; cbn; eauto|].
  split; [eexists; split; [reflexivity|]; repeat split; cbn; eauto|].
  eexists; split; [reflexivity|].
  unfold get_collection;
    cbn [collections variables summaries next_metric log next_placeholder
         next_scope set_collections set_next_scope set_next_placeholder set_log].
  repeat (split; [reflexivity|]).
  split; [|split].
  - rewrite lookup_insert_ne by done. rewrite lookup_insert_eq.
    cbn [from_option]; unfold Datatypes.id. rewrite length_app. cbn. lia.
  - rewrite lookup_insert_eq. rewrite lookup_insert_ne by done.
    cbn [from_option]; unfold Datatypes.id. rewrite length_app. cbn. lia.
  - intros c Hi Ho. rewrite !lookup_insert_ne by done. reflexivity.
Qed.

(** ** The training step *)

Lemma wrap_int32_small z : - 2 ^ 31 <= z < 2 ^ 31 → wrap_int32 z = z.
Proof.
  intros H. unfold wrap_int32. rewrite Z.mod_small by lia. lia.
Qed.

(** A tensor with a gradient for some layer is a float tensor. *)
Lemma trained_scopes_float feeds sess t v :
  trained_scopes t ≠ [] → eval feeds sess t = Some v → float_value v = true.
Proof.
  destruct t; cbn [trained_scopes]; try done; intros _; cbn [eval].
  - destruct (eval feeds sess t) as [[]|]; try discriminate. intros [= <-]. reflexivity.
  - destruct (eval feeds sess t) as [[]|]; try discriminate. intros [= <-]. reflexivity.
  - destruct (eval feeds sess t1) as [[]|]; try discriminate.
    destruct (eval feeds sess t2) as [[]|]; try discriminate.
    destruct (zip_rows _ _ _); try discriminate. intros [= <-]. reflexivity.
  - destruct (eval feeds sess t) as [[| v0 | m0 | | | | | | | |]|]; try discriminate;
      intros [= <-]; try reflexivity; [destruct v0|destruct (concat m0)]; reflexivity.
  - destruct (eval feeds sess t) as [[]|], dt; try discriminate;
      intros [= <-]; reflexivity.
Qed.

Section TrainingStep.

Variable gradients : Feeds -> Session -> tensor -> nat -> LayerParams.

Lemma run_minimize_completes feeds sess lr loss_op i v n :
  eval feeds sess loss_op = Some v →
  float_value v = true →
  int_variables sess !! i = Some n →
  ∃ sess', run gradients feeds sess (Minimize lr loss_op (Some (VariableRef i)))
           = Some sess'.
Proof.
  intros Hloss Hfloat Hn. cbn [run]. rewrite Hloss, Hfloat, Hn. eexists. reflexivity.
Qed.

Lemma run_minimize_step feeds sess sess' lr loss_op i n :
  run gradients feeds sess (Minimize lr loss_op (Some (VariableRef i))) = Some sess' →
  int_variables sess !! i = Some n →
  int_variables sess' !! i = Some (wrap_int32 (n + 1)).
Proof.
  cbn [run]. intros Hrun Hn.
  destruct (eval feeds sess loss_op) as [v|]; [|discriminate].
  destruct (float_value v); [|discriminate].
  rewrite Hn in Hrun. cbn in Hrun. injection Hrun as <-.
  cbn [int_variables set_int_variables].
  apply list_lookup_insert_eq. eapply lookup_lt_Some, Hn.
Qed.

Lemma run_all_minimize_steps batches : ∀ sess sess' lr loss_op i n,
  run_all gradients batches sess (Minimize lr loss_op (Some (VariableRef i)))
    = Some sess' →
  int_variables sess !! i = Some n →
  - 2 ^ 31 <= n →
  n + Z.of_nat (length batches) < 2 ^ 31 →
  int_variables sess' !! i = Some (n + Z.of_nat (length batches)).
Proof.
  induction batches as [|feeds batches IH];
    intros sess sess' lr loss_op i n Hrun Hn Hlo Hhi.
  - injection Hrun as <-. rewrite Hn. f_equal. cbn. lia.
  - cbn [run_all] in Hrun. cbn [length] in Hhi.
    destruct (run gradients feeds sess _) as [sess1|] eqn:Hstep; [|discriminate].
    cbn in Hrun.
    pose proof (run_minimize_step _ _ _ _ _ _ _ Hstep Hn) as H1.
    rewrite wrap_int32_small in H1 by lia.
    rewrite (IH _ _ _ _ _ _ Hrun H1) by lia. f_equal. cbn [length]. lia.
Qed.

End TrainingStep.

Lemma eval_variable feeds sess i :
  eval feeds sess (VariableRef i) = VInt0 <$> int_variables sess !! i.
Proof. cbn [eval]. destruct (_ !! _); reflexivity. Qed.

(** C6. For a loss that depends on a trainable layer (for any other loss
    [training] raises and creates no train op), the counter [training]
    creates holds 0 in a freshly initialised session.  The counter is a signed
    32-bit integer.  Whatever the gradients and whatever the value of the
    loss, a run of the train op that evaluates its loss completes and leaves
    a counter below 2147483647 exactly 1 higher, and wraps a counter of
    2147483647 around to -2147483648; after a series of at most 2147483647
    completed runs from the initial session the counter equals the number of
    runs. *)
Theorem training_global_step
    (gradients : Feeds -> Session -> tensor -> nat -> LayerParams)
    (loss_op : tensor) (lr : R) (w : World) :
  trained_scopes loss_op ≠ [] →
  ∃ train_op step w',
    training loss_op lr w = Some ((train_op, step), w') ∧
    (∀ drawn feeds, eval feeds (initial_session w' drawn) step = Some (VInt0 0)) ∧
    (∀ feeds sess v n,
       eval feeds sess loss_op = Some v →
       eval feeds sess step = Some (VInt0 n) →
       - 2 ^ 31 <= n < 2 ^ 31 - 1 →
       ∃ sess', run gradients feeds sess train_op = Some sess' ∧
                eval feeds sess' step = Some (VInt0 (n + 1))) ∧
    (∀ feeds sess v,
       eval feeds sess loss_op = Some v →
       eval feeds sess step = Some (VInt0 2147483647) →
       ∃ sess', run gradients feeds sess train_op = Some sess' ∧
                eval feeds sess' step = Some (VInt0 (-2147483648))) ∧
    (∀ drawn batches sess' feeds,
       run_all gradients batches (initial_session w' drawn) train_op = Some sess' →
       Z.of_nat (length batches) <= 2147483647 →
       eval feeds sess' step = Some (VInt0 (Z.of_nat (length batches)))).
Proof.
  intros Htrained.
  eexists _, _, _. split; [apply training_run, Htrained|].
  assert (Hinit : ∀ drawn,
    int_variables (initial_session (set_variables (variables w ++ [step_counter]) w) drawn)
      !! length (variables w) = Some 0).
  { intros drawn. cbn [initial_session int_variables variables set_variables].
    rewrite fmap_app, lookup_app_r by (rewrite length_fmap; lia).
    rewrite length_fmap, Nat.sub_diag. reflexivity. }
  assert (Hstep : ∀ feeds sess v n,
    eval feeds sess loss_op = Some v →
    eval feeds sess (VariableRef (length (variables w))) = Some (VInt0 n) →
    ∃ sess',
      run gradients feeds sess
        (Minimize lr loss_op (Some (VariableRef (length (variables w))))) = Some sess' ∧
      eval feeds sess' (VariableRef (length (variables w)))
      = Some (VInt0 (wrap_int32 (n + 1)))).
  { intros feeds sess v n Hloss Hn. rewrite eval_variable in Hn.
    destruct (int_variables sess !! length (variables w)) as [n'|] eqn:Hn';
      [|discriminate].
    injection Hn as ->.
    pose proof (trained_scopes_float _ _ _ _ Htrained Hloss) as Hfloat.
    destruct (run_minimize_completes gradients feeds sess lr loss_op _ v n
                Hloss Hfloat Hn') as [sess' Hrun].
    exists sess'. split; [exact Hrun|].
    rewrite eval_variable, (run_minimize_step _ _ _ _ _ _ _ _ Hrun Hn').
    reflexivity. }
  split; [|split; [|split]].
  - intros drawn feeds. rewrite eval_variable, Hinit. reflexivity.
  - intros feeds sess v n Hloss Hn Hrange.
    destruct (Hstep feeds sess v n Hloss Hn) as (sess' & Hrun & Heval).
    exists sess'. split; [exact Hrun|].
    rewrite Heval, wrap_int32_small by lia. reflexivity.
  - intros feeds sess v Hloss Hn.
    destruct (Hstep feeds sess v _ Hloss Hn) as (sess' & Hrun & Heval).
    exists sess'. split; [exact Hrun|]. rewrite Heval. reflexivity.
  - intros drawn batches sess' feeds Hrun Hbound.
    rewrite eval_variable,
      (run_all_minimize_steps _ _ _ _ _ _ _ _ Hrun (Hinit drawn)) by lia.
    reflexivity.
Qed.

(** ** Parsing *)

Lemma parse_dense_images records :
  Forall well_formed_record records →
  parse_dense {| fl_shape := [IMAGE_PIXELS]; fl_dtype := DT_FLOAT;
                 fl_default_value := None |} "images" records
  = Some (VFloat2 (image_of <$> records)).
Proof.
  intros Hwf. unfold parse_dense.
  assert (mapM (fun ex : Example =>
                  feature_or_default
                    {| fl_shape := [IMAGE_PIXELS]; fl_dtype := DT_FLOAT;
                       fl_default_value := None |} (ex !! "images")
                  ≫= check_feature
                        {| fl_shape := [IMAGE_PIXELS]; fl_dtype := DT_FLOAT;
                           fl_default_value := None |}) records
          = Some ((fun ex => FloatList (image_of ex)) <$> records)) as ->.
  { induction Hwf as [|ex records [[img [Himg Hlen]] _] _ IH]; [reflexivity|].
    assert (image_of ex = img) as Hi by (unfold image_of; rewrite Himg; reflexivity).
    cbn [mapM]. rewrite IH, Himg, fmap_cons, Hi.
    cbn [feature_or_default mbind option_bind check_feature fl_dtype fl_shape
         floats_of].
    rewrite decide_True; [reflexivity|].
    rewrite Hlen. cbn. lia. }
  cbn [mbind option_bind dense fl_dtype fl_shape]. do 2 f_equal.
  rewrite <- list_fmap_compose. reflexivity.
Qed.

Lemma parse_dense_labels records :
  Forall well_formed_record records →
  parse_dense {| fl_shape := []; fl_dtype := DT_INT64;
                 fl_default_value := Some (Int64List [-1]) |} "labels" records
  = Some (VInt1 ((fun ex => default (-1) (label_of ex)) <$> records)).
Proof.
  intros Hwf. unfold parse_dense.
  assert (mapM (fun ex : Example =>
                  feature_or_default
                    {| fl_shape := []; fl_dtype := DT_INT64;
                       fl_default_value := Some (Int64List [-1]) |} (ex !! "labels")
                  ≫= check_feature
                        {| fl_shape := []; fl_dtype := DT_INT64;
                           fl_default_value := Some (Int64List [-1]) |}) records
          = Some ((fun ex => Int64List [default (-1) (label_of ex)]) <$> records))
    as ->.
  { induction Hwf as [|ex records [_ Hlab] _ IH]; [reflexivity|].
    cbn [mapM]. rewrite IH, fmap_cons.
    destruct Hlab as [Hl | [l Hl]].
    - assert (label_of ex = None) as -> by (unfold label_of; rewrite Hl; reflexivity).
      rewrite Hl. reflexivity.
    - assert (label_of ex = Some l) as -> by (unfold label_of; rewrite Hl; reflexivity).
      rewrite Hl. reflexivity. }
  cbn [mbind option_bind dense fl_dtype fl_shape]. do 2 f_equal.
  clear Hwf. induction records as [|ex records IH]; [reflexivity|].
  cbn. f_equal. exact IH.
Qed.

Lemma training_features_lookup k spec :
  training_features !! k = Some spec →
  (k = "labels" ∧ spec = {| fl_shape := []; fl_dtype := DT_INT64;
                            fl_default_value := Some (Int64List [-1]) |}) ∨
  (k = "images" ∧ spec = {| fl_shape := [IMAGE_PIXELS]; fl_dtype := DT_FLOAT;
                            fl_default_value := None |}).
Proof.
  unfold training_features. intros H.
  destruct (decide (k = "labels")) as [->|Hne].
  - rewrite lookup_insert_eq in H. injection H as <-. left. split; reflexivity.
  - rewrite lookup_insert_ne in H by done.
    apply lookup_singleton_Some in H as [<- <-]. right. split; reflexivity.
Qed.

Lemma eval_parse_examples feeds sess examples records key spec :
  eval feeds sess examples = Some (VExamples records) →
  Forall well_formed_record records →
  training_features !! key = Some spec →
  eval feeds sess (ParseExample examples training_features key)
  = parse_dense spec key records.
Proof.
  intros Hex Hwf Hkey. cbn [eval]. rewrite Hex.
  rewrite bool_decide_eq_true_2.
  - rewrite Hkey. reflexivity.
  - intros k s Hk. apply training_features_lookup in Hk as [[-> ->]|[-> ->]].
    + rewrite parse_dense_labels by done. eauto.
    + rewrite parse_dense_images by done. eauto.
Qed.

(** C4. On N well-formed records [parse_examples] returns exactly the two
    fields "images" and "labels"; "images" evaluates to a float tensor with one
    row of 784 values per record, the record's own image, and "labels" to an
    integer tensor with one entry per record, the record's own label, or -1
    for a record without a "labels" feature. *)
Theorem parse_examples_roundtrip (feeds : Feeds) (sess : Session)
    (examples : tensor) (records : list Example) :
  eval feeds sess examples = Some (VExamples records) →
  Forall well_formed_record records →
  dom (parse_examples examples) = {[ "images"; "labels" ]} ∧
  ∃ images labels m ls,
    parse_examples examples !! "images" = Some images ∧
    parse_examples examples !! "labels" = Some labels ∧
    eval feeds sess images = Some (VFloat2 m) ∧
    eval feeds sess labels = Some (VInt1 ls) ∧
    length m = length records ∧
    Forall (fun row => length row = 784%nat) m ∧
    length ls = length records ∧
    ∀ i ex, records !! i = Some ex →
      (∀ img, ex !! "images" = Some (FloatList img) → m !! i = Some img) ∧
      (∀ l, ex !! "labels" = Some (Int64List [l]) → ls !! i = Some l) ∧
      (ex !! "labels" = None → ls !! i = Some (-1)).
Proof.
  intros Hex Hwf. rewrite parse_examples_eq. split.
  - rewrite parse_example_dom. unfold training_features.
    rewrite dom_insert_L, dom_singleton_L. set_solver.
  - exists (ParseExample examples training_features "images"),
           (ParseExample examples training_features "labels"),
           (image_of <$> records),
           ((fun ex => default (-1) (label_of ex)) <$> records).
    split; [eapply parse_example_lookup; reflexivity|].
    split; [eapply parse_example_lookup; reflexivity|].
    split.
    { rewrite (eval_parse_examples _ _ _ records "images" _ Hex Hwf eq_refl).
      apply parse_dense_images, Hwf. }
    split.
    { rewrite (eval_parse_examples _ _ _ records "labels" _ Hex Hwf eq_refl).
      apply parse_dense_labels, Hwf. }
    split; [apply length_fmap|].
    split.
    { apply Forall_fmap. eapply Forall_impl; [exact Hwf|].
      intros ex [[img [Himg Hlen]] _]. unfold image_of. cbn. rewrite Himg. exact Hlen. }
    split; [apply length_fmap|].
    intros i ex Hi. rewrite !list_lookup_fmap, Hi. cbn.
    unfold image_of, label_of. split; [|split].
    + intros img ->. reflexivity.
    + intros l ->. reflexivity.
    + intros ->. reflexivity.
Qed.

(** ** Batches *)

Lemma zip_rows_cons {A B C} (f : A → B → option C) r rows l labels :
  zip_rows f (r :: rows) (l :: labels) =
  c ← f r l; cs ← zip_rows f rows labels; Some (c :: cs).
Proof.
  unfold zip_rows. cbn [zip zip_with mapM length fst snd].
  destruct (decide (length rows = length labels)) as [Heq|Hne].
  - rewrite decide_True by (cbn; lia). reflexivity.
  - rewrite decide_False by (cbn; lia). destruct (f r l); reflexivity.
Qed.

Lemma zip_rows_Some {A B C} (f : A → B → option C) rows labels :
  Forall2 (fun r l => is_Some (f r l)) rows labels →
  ∃ cs, zip_rows f rows labels = Some cs.
Proof.
  induction 1 as [|r l rows labels [c Hc] _ [cs Hcs]].
  - exists []. reflexivity.
  - exists (c :: cs). rewrite zip_rows_cons, Hc, Hcs. reflexivity.
Qed.

Lemma zip_rows_Forall {A B C} (f : A → B → option C) (P : A → B → Prop)
    (Q : C → Prop) rows labels :
  (∀ r l c, P r l → f r l = Some c → Q c) →
  Forall2 P rows labels → ∀ cs,
  zip_rows f rows labels = Some cs →
  Forall Q cs ∧ length cs = length rows.
Proof.
  intros HPQ. induction 1 as [|r l rows labels HP _ IH]; intros cs Hcs.
  - injection Hcs as <-. split; [constructor|reflexivity].
  - rewrite zip_rows_cons in Hcs.
    destruct (f r l) as [c|] eqn:Hc; [|discriminate].
    destruct (zip_rows f rows labels) as [cs'|]; [|discriminate].
    injection Hcs as <-. destruct (IH cs' eq_refl) as [HQ Hlen].
    split; [constructor; [exact (HPQ r l c HP Hc)|exact HQ]|cbn; lia].
Qed.

Lemma zip_rows_nil_r {A B C} (f : A → B → option C) r rows :
  zip_rows f (r :: rows) [] = None.
Proof. unfold zip_rows. rewrite decide_False by (cbn; lia). reflexivity. Qed.

Lemma zip_rows_nil_l {A B C} (f : A → B → option C) l labels :
  zip_rows f [] (l :: labels) = None.
Proof. unfold zip_rows. rewrite decide_False by (cbn; lia). reflexivity. Qed.


Lemma zip_rows_Forall2 {A B C} (f : A → B → option C) rows : ∀ labels cs,
  zip_rows f rows labels = Some cs →
  Forall2 (fun p c => f p.1 p.2 = Some c) (zip rows labels) cs.
Proof.
  induction rows as [|r rows IH]; intros [|l labels] cs Hcs.
  - injection Hcs as <-. constructor.
  - rewrite zip_rows_nil_l in Hcs. discriminate.
  - rewrite zip_rows_nil_r in Hcs. discriminate.
  - rewrite zip_rows_cons in Hcs.
    destruct (f r l) as [c|] eqn:Hc; [|discriminate].
    destruct (zip_rows f rows labels) as [cs'|] eqn:Hcs'; [|discriminate].
    injection Hcs as <-. constructor; [exact Hc|apply IH, Hcs'].
Qed.

Lemma zip_rows_ext {A B C} (f : A → B → option C) rows rows' labels :
  Forall2 (fun r r' => ∀ l, f r' l = f r l) rows rows' →
  zip_rows f rows' labels = zip_rows f rows labels.
Proof.
  intros H. revert labels.
  induction H as [|r r' rows rows' Hr _ IH]; intros [|l labels].
  - reflexivity.
  - reflexivity.
  - rewrite !zip_rows_nil_r. reflexivity.
  - rewrite !zip_rows_cons, Hr, IH. reflexivity.
Qed.

Section Mean.
Local Open Scope R_scope.

Lemma Rsum_bounds (l : list R) (lo hi : R) :
  Forall (fun x => lo <= x <= hi) l →
  lo * INR (length l) <= Rsum l <= hi * INR (length l).
Proof.
  induction 1 as [|x l [Hlo Hhi] _ IH].
  - cbn. lra.
  - cbn [Rsum fold_right length]. fold (Rsum l). rewrite S_INR. lra.
Qed.

Lemma mean_bounds (l : list R) (lo hi : R) :
  l ≠ [] → Forall (fun x => lo <= x <= hi) l → lo <= mean l <= hi.
Proof.
  intros Hne Hall. pose proof (Rsum_bounds l lo hi Hall) as [H1 H2].
  assert (0 < INR (length l)) as Hpos.
  { apply lt_0_INR. destruct l; [done|cbn; lia]. }
  unfold mean. split.
  - apply Rmult_le_reg_r with (INR (length l)); [exact Hpos|].
    unfold Rdiv. rewrite Rmult_assoc, Rinv_l by lra. lra.
  - apply Rmult_le_reg_r with (INR (length l)); [exact Hpos|].
    unfold Rdiv. rewrite Rmult_assoc, Rinv_l by lra. lra.
Qed.

Lemma mean_const (l : list R) (c : R) :
  l ≠ [] → Forall (fun x => x = c) l → mean l = c.
Proof.
  intros Hne Hall. apply Rle_antisym.
  - apply (mean_bounds l c c Hne). eapply Forall_impl; [exact Hall|].
    intros x ->. lra.
  - apply (mean_bounds l c c Hne). eapply Forall_impl; [exact Hall|].
    intros x ->. lra.
Qed.

Lemma mean_lt (l : list R) (lo hi : R) :
  l ≠ [] → Forall (fun x => lo <= x < hi) l → lo <= mean l < hi.
Proof.
  intros Hne Hall. split.
  - apply (mean_bounds l lo hi Hne). eapply Forall_impl; [exact Hall|].
    cbn. intros x [? ?]. lra.
  - assert (0 < INR (length l)) as Hpos.
    { apply lt_0_INR. destruct l; [done|cbn; lia]. }
    assert (Rsum l < hi * INR (length l)) as Hsum.
    { clear Hpos. induction Hall as [|x l' [Hlo Hhi] Hall' IH]; [done|].
      cbn [Rsum fold_right length]. fold (Rsum l'). rewrite S_INR.
      destruct l' as [|y l''].
      - cbn. lra.
      - assert (Rsum (y :: l'') < hi * INR (length (y :: l''))) by (apply IH; done).
        lra. }
    unfold mean. apply Rmult_lt_reg_r with (INR (length l)); [exact Hpos|].
    unfold Rdiv. rewrite Rmult_assoc, Rinv_l by lra. lra.
Qed.

End Mean.

(** ** Accuracy *)

Lemma zip_rows_total {A B C} (f : A → B → C) rows : ∀ labels,
  length rows = length labels →
  zip_rows (fun r l => Some (f r l)) rows labels = Some (zip_with f rows labels).
Proof.
  induction rows as [|r rows IH]; intros [|l labels] Hlen; try discriminate.
  - reflexivity.
  - rewrite zip_rows_cons, IH by (cbn in Hlen; lia). reflexivity.
Qed.

Lemma Forall2_conj {A B} (P Q : A → B → Prop) l k :
  Forall2 P l k → Forall2 Q l k → Forall2 (fun a b => P a b ∧ Q a b) l k.
Proof.
  intros HP. induction HP as [|a b l k Ha _ IH]; intros HQ.
  - constructor.
  - apply Forall2_cons_1 in HQ as [Hb HQ]. constructor; [done|exact (IH HQ)].
Qed.

Lemma mean_value_ne l : l ≠ [] → mean_value l = VFloat0 (mean l).
Proof. destruct l; [done|reflexivity]. Qed.

Lemma target_score_nonneg row label :
  0 <= label → target_score row label = row !! Z.to_nat label.
Proof. intros H. unfold target_score. rewrite decide_True by exact H. reflexivity. Qed.

Lemma in_top_k_row_unique_max row label :
  0 <= label → true_label_unique_max row label → in_top_k_row 1 row label = true.
Proof.
  intros H0 [x [Hx Hmax]]. unfold in_top_k_row.
  rewrite target_score_nonneg, Hx by exact H0.
  apply bool_decide_eq_true_2.
  destruct (filter (fun y => Rlt x y) row) as [|y ys] eqn:Hf; [cbn; lia|].
  assert (y ∈ filter (fun y => Rlt x y) row) as Hin by (rewrite Hf; left).
  apply list_elem_of_filter in Hin as [Hlt Hy].
  apply list_elem_of_lookup in Hy as [j Hj].
  destruct (decide (j = Z.to_nat label)) as [->|Hne].
  - rewrite Hx in Hj. injection Hj as ->. lra.
  - specialize (Hmax j y Hne Hj). lra.
Qed.

Lemma in_top_k_row_not_max row label :
  0 <= label → true_label_not_max row label → in_top_k_row 1 row label = false.
Proof.
  intros H0 [x [Hx [y [Hy Hlt]]]]. unfold in_top_k_row.
  rewrite target_score_nonneg, Hx by exact H0.
  apply bool_decide_eq_false_2.
  assert (y ∈ filter (fun y => Rlt x y) row) as Hin
    by (apply list_elem_of_filter; done).
  destruct (filter (fun y => Rlt x y) row); [inversion Hin|cbn; lia].
Qed.

Lemma eval_evaluation feeds sess logits labels m ls :
  eval feeds sess logits = Some (VFloat2 m) →
  eval feeds sess labels = Some (VInt1 ls) →
  eval feeds sess (evaluation logits labels)
  = if decide (length m = length ls)
    then Some (mean_value (bool_to_float <$> zip_with (in_top_k_row 1) m ls))
    else None.
Proof.
  intros Hm Hls. unfold evaluation, tf.reduce_mean, tf.cast, tf.nn.in_top_k.
  cbn [eval]. rewrite Hm, Hls.
  destruct (decide (length m = length ls)) as [Hlen|Hlen].
  - rewrite zip_rows_total by exact Hlen. reflexivity.
  - unfold zip_rows. rewrite decide_False by exact Hlen. reflexivity.
Qed.

Lemma Forall_zip_with {A B C} (f : A → B → C) (P : A → B → Prop) (Q : C → Prop)
    l k :
  (∀ a b, P a b → Q (f a b)) → Forall2 P l k → Forall Q (zip_with f l k).
Proof.
  intros HPQ. induction 1 as [|a b l k Hab _ IH]; cbn [zip_with]; constructor.
  - exact (HPQ a b Hab).
  - exact IH.
Qed.

(** C2. On a non-empty batch of rows of 10 logits with labels in [0, 9],
    [evaluation] evaluates to a number between 0 and 1; to exactly 1 when in
    every example the logit of the true label is the unique maximum of the
    row, and to exactly 0 when in every example some logit exceeds the one of
    the true label. *)
Theorem evaluation_accuracy (feeds : Feeds) (sess : Session)
    (logits labels : tensor) (m : list (list R)) (ls : list Z) :
  eval feeds sess logits = Some (VFloat2 m) →
  eval feeds sess labels = Some (VInt1 ls) →
  m ≠ [] →
  length m = length ls →
  Forall (fun row => length row = NUM_CLASSES) m →
  Forall (fun l => 0 <= l <= 9) ls →
  ∃ a, eval feeds sess (evaluation logits labels) = Some (VFloat0 a) ∧
       (0 <= a <= 1)%R ∧
       (Forall2 true_label_unique_max m ls → a = 1%R) ∧
       (Forall2 true_label_not_max m ls → a = 0%R).
Proof.
  intros Hlogits Hlabels Hne Hlen Hrows Hls.
  assert (Forall2 (fun (row : list R) l => 0 <= l) m ls) as Hrange.
  { apply Forall2_same_length_lookup_2; [exact Hlen|].
    intros i row l Hrow Hl.
    pose proof (proj1 (Forall_lookup _ _) Hls i l Hl) as Hb. cbn in Hb. lia. }
  set (bs := zip_with (in_top_k_row 1) m ls).
  assert (bool_to_float <$> bs ≠ []) as Hbne.
  { unfold bs. destruct m as [|row m]; [done|]. destruct ls; discriminate. }
  exists (mean (bool_to_float <$> bs)).
  split; [|split; [|split]].
  - rewrite (eval_evaluation _ _ _ _ _ _ Hlogits Hlabels).
    rewrite decide_True by exact Hlen. fold bs.
    rewrite mean_value_ne by exact Hbne. reflexivity.
  - apply mean_bounds; [exact Hbne|].
    apply Forall_fmap, Forall_forall. intros [] _; cbn; lra.
  - intros Hall. apply mean_const; [exact Hbne|].
    apply Forall_fmap. unfold bs.
    eapply Forall_zip_with; [|exact (Forall2_conj _ _ _ _ Hrange Hall)].
    intros row l [H0 Hmax]. cbn. rewrite in_top_k_row_unique_max by assumption.
    reflexivity.
  - intros Hall. apply mean_const; [exact Hbne|].
    apply Forall_fmap. unfold bs.
    eapply Forall_zip_with; [|exact (Forall2_conj _ _ _ _ Hrange Hall)].
    intros row l [H0 Hmax]. cbn. rewrite in_top_k_row_not_max by assumption.
    reflexivity.
Qed.

(** ** Cross entropy *)

Lemma mean_ge (l : list R) (lo : R) :
  l ≠ [] → Forall (fun x => (lo <= x)%R) l → (lo <= mean l)%R.
Proof.
  intros Hne Hall.
  assert (lo * INR (length l) <= Rsum l)%R as Hsum.
  { clear Hne. induction Hall as [|x l' Hx _ IH]; [cbn; lra|].
    cbn [Rsum fold_right length]. fold (Rsum l'). rewrite S_INR. lra. }
  assert (0 < INR (length l))%R as Hpos.
  { apply lt_0_INR. destruct l; [done|cbn; lia]. }
  unfold mean. apply Rmult_le_reg_r with (INR (length l)); [exact Hpos|].
  unfold Rdiv. rewrite Rmult_assoc, Rinv_l by lra. lra.
Qed.

Lemma wrap_int64_small z : -2 ^ 63 <= z < 2 ^ 63 → wrap_int64 z = z.
Proof.
  intros H. unfold wrap_int64. rewrite Z.mod_small by lia. lia.
Qed.

Lemma zip_rows_fmap {A B C D} (f : A → B → option C) (g : A → B → option D)
    (h : D → C) (P : A → B → Prop) rows labels :
  (∀ r l d, P r l → g r l = Some d → f r l = Some (h d)) →
  Forall2 P rows labels → ∀ ds,
  zip_rows g rows labels = Some ds →
  zip_rows f rows labels = Some (h <$> ds).
Proof.
  intros Hfg. induction 1 as [|r l rows labels HP _ IH]; intros ds Hds.
  - injection Hds as <-. reflexivity.
  - rewrite zip_rows_cons in Hds. rewrite zip_rows_cons.
    destruct (g r l) as [d|] eqn:Hd; [|discriminate].
    destruct (zip_rows g rows labels) as [ds'|]; [|discriminate].
    injection Hds as <-. rewrite (Hfg r l d HP Hd), (IH ds' eq_refl). reflexivity.
Qed.

Section CrossEntropy.
Local Open Scope R_scope.

Lemma Rsum_exp_ge (row : list R) (i : nat) (x : R) :
  row !! i = Some x → exp x <= Rsum (exp <$> row).
Proof.
  revert i. induction row as [|y row IH]; intros [|i] H; try discriminate.
  - injection H as ->. cbn [fmap list_fmap Rsum fold_right]. fold (Rsum (exp <$> row)).
    assert (0 <= Rsum (exp <$> row)); [|lra].
    clear IH. induction row as [|z row IH]; cbn; [lra|].
    pose proof (exp_pos z). fold (Rsum (exp <$> row)). lra.
  - cbn [fmap list_fmap Rsum fold_right]. fold (Rsum (exp <$> row)).
    pose proof (IH i H). pose proof (exp_pos y). lra.
Qed.

(** The probability of the true class lies in (0, 1] and the cross entropy of
    the row is minus its logarithm. *)
Lemma true_class_probability_spec (row : list R) (label : Z) (p : R) :
  (0 <= label)%Z →
  true_class_probability row label = Some p →
  0 < p <= 1 ∧ xent_row row label = Some (- ln p).
Proof.
  intros Hl. unfold true_class_probability, softmax_row, xent_row.
  rewrite list_lookup_fmap, decide_True by done.
  destruct (row !! Z.to_nat label) as [x|] eqn:Hx; [|discriminate].
  cbn [fmap option_fmap option_map mbind option_bind]. intros [= <-].
  pose proof (Rsum_exp_ge row _ x Hx) as Hge. pose proof (exp_pos x) as Hpos.
  set (s := Rsum (exp <$> row)) in *.
  assert (0 < s) as Hs by lra.
  repeat split.
  - apply Rdiv_lt_0_compat; assumption.
  - apply Rmult_le_reg_r with s; [exact Hs|].
    unfold Rdiv. rewrite Rmult_assoc, Rinv_l by lra. lra.
  - f_equal. unfold Rdiv. rewrite ln_mult; [|exact Hpos|apply Rinv_0_lt_compat, Hs].
    rewrite ln_exp, ln_Rinv by exact Hs. lra.
Qed.

Lemma neg_ln_bounds (p : R) : 0 < p <= 1 → 0 <= - ln p.
Proof.
  intros [Hpos Hle]. destruct (Rle_lt_or_eq_dec _ _ Hle) as [Hlt| ->].
  - pose proof (ln_increasing p 1 Hpos Hlt). rewrite ln_1 in *. lra.
  - rewrite ln_1. lra.
Qed.

Lemma neg_ln_lt (p eps : R) : 0 < p → exp (- eps) < p → - ln p < eps.
Proof.
  intros Hpos Hlt.
  pose proof (ln_increasing _ _ (exp_pos (- eps)) Hlt) as H.
  rewrite ln_exp in H. lra.
Qed.

End CrossEntropy.

Lemma eval_loss feeds sess logits labels m ls :
  eval feeds sess logits = Some (VFloat2 m) →
  eval feeds sess labels = Some (VInt1 ls) →
  eval feeds sess (loss logits labels)
  = mean_value <$> zip_rows xent_row m (wrap_int64 <$> ls).
Proof.
  intros Hm Hls.
  unfold loss, tf.reduce_mean, tf.nn.sparse_softmax_cross_entropy_with_logits,
    tf.to_int64.
  cbn [eval]. rewrite Hm, Hls.
  destruct (zip_rows xent_row m (wrap_int64 <$> ls)); reflexivity.
Qed.

Lemma wrap_int64_labels ls :
  Forall (fun l => 0 <= l <= 9) ls → wrap_int64 <$> ls = ls.
Proof.
  induction 1 as [|l ls Hl _ IH]; [reflexivity|].
  cbn. rewrite IH, wrap_int64_small by lia. reflexivity.
Qed.

(** C3. On a non-empty batch of rows of 10 logits with labels in [0, 9],
    [loss] is the mean over the batch of the cross entropy of each row
    against the label converted to a 64-bit integer, a conversion that leaves
    such labels as they are.  The cross entropy of an example is minus the
    logarithm of the softmax probability [exp x / sum of exp] of its true
    class, where [x] is the logit of the true class; there is one per
    example.  The result is a single number, the sum of the examples' cross
    entropies divided by their number.  It is non-negative, and it is below
    any positive bound [eps] as soon as every true-class probability exceeds
    [exp (-eps)], a threshold below 1 that tends to 1 as [eps] tends to
    0. *)
Theorem loss_cross_entropy (feeds : Feeds) (sess : Session)
    (logits labels : tensor) (m : list (list R)) (ls : list Z) :
  eval feeds sess logits = Some (VFloat2 m) →
  eval feeds sess labels = Some (VInt1 ls) →
  m ≠ [] →
  length m = length ls →
  Forall (fun row => length row = NUM_CLASSES) m →
  Forall (fun l => 0 <= l <= 9) ls →
  loss logits labels =
    ReduceMean (SparseSoftmaxCrossEntropyWithLogits logits (ToInt64 labels)) ∧
  eval feeds sess (ToInt64 labels) = Some (VInt1 ls) ∧
  ∃ ps L,
    length ps = length m ∧
    (∀ i row l, m !! i = Some row → ls !! i = Some l →
       ∃ x p, row !! Z.to_nat l = Some x ∧ ps !! i = Some p ∧
              p = (exp x / fold_right Rplus 0 (map exp row))%R ∧
              softmax_row row !! Z.to_nat l = Some p ∧
              (0 < p <= 1)%R) ∧
    eval feeds sess (SparseSoftmaxCrossEntropyWithLogits logits (ToInt64 labels))
      = Some (VFloat1 (map (fun p => (- ln p)%R) ps)) ∧
    eval feeds sess (loss logits labels) = Some (VFloat0 L) ∧
    (L * INR (length m))%R = fold_right Rplus 0%R (map (fun p => (- ln p)%R) ps) ∧
    (0 <= L)%R ∧
    ∀ eps, (0 < eps)%R → (exp (- eps) < 1)%R ∧
           (Forall (fun p => (exp (- eps) < p)%R) ps → (L < eps)%R).
Proof.
  intros Hlogits Hlabels Hne Hlen Hrows Hls.
  pose proof (wrap_int64_labels ls Hls) as Hwrap.
  split; [reflexivity|].
  split; [cbn [eval]; rewrite Hlabels, Hwrap; reflexivity|].
  assert (Forall2 (fun row l => (0 <= l < Z.of_nat (length row))%Z) m ls) as Hrange.
  { apply Forall2_same_length_lookup_2; [exact Hlen|].
    intros i row l Hrow Hl.
    rewrite (proj1 (Forall_lookup _ _) Hrows i row Hrow).
    pose proof (proj1 (Forall_lookup _ _) Hls i l Hl) as Hb.
    cbn in *. unfold NUM_CLASSES. lia. }
  destruct (zip_rows_Some true_class_probability m ls) as [ps Hps].
  { eapply Forall2_impl; [exact Hrange|]. intros row l [H0 H1].
    unfold true_class_probability, softmax_row. rewrite list_lookup_fmap.
    destruct (lookup_lt_is_Some_2 row (Z.to_nat l)) as [x ->]; [lia|]. cbn. eauto. }
  destruct (zip_rows_Forall true_class_probability
              (fun row l => (0 <= l < Z.of_nat (length row))%Z)
              (fun p => (0 < p <= 1)%R)
              m ls) with (cs := ps) as [Hprob Hplen]; [|exact Hrange|exact Hps|].
  { intros row l p [H0 _] Hp. apply (true_class_probability_spec row l p H0 Hp). }
  assert (zip_rows xent_row m ls = Some ((fun p => (- ln p)%R) <$> ps)) as Hxent.
  { eapply zip_rows_fmap; [|exact Hrange|exact Hps].
    intros row l p [H0 _] Hp. apply (true_class_probability_spec row l p H0 Hp). }
  assert ((fun p => (- ln p)%R) <$> ps ≠ []) as Hpne.
  { destruct ps; [|done]. destruct m; [done|discriminate]. }
  pose proof (zip_rows_Forall2 _ _ _ _ Hps) as Heach.
  exists ps, (mean ((fun p => (- ln p)%R) <$> ps)).
  split; [exact Hplen|]. split; [|split; [|split; [|split; [|split]]]].
  - intros i row l Hrow Hl.
    assert (zip m ls !! i = Some (row, l)) as Hzip.
    { apply lookup_zip_with_Some. exists row, l. done. }
    destruct (Forall2_lookup_l _ _ _ _ _ Heach Hzip) as (p & Hp & Htcp).
    cbn [fst snd] in Htcp.
    pose proof (Forall2_lookup_lr _ _ _ _ _ _ Hrange Hrow Hl) as [H0 _].
    destruct (true_class_probability_spec row l p H0 Htcp) as [Hbounds _].
    unfold true_class_probability in Htcp.
    pose proof Htcp as Hsoft. unfold softmax_row in Htcp.
    rewrite list_lookup_fmap in Htcp.
    destruct (row !! Z.to_nat l) as [x|]; [|discriminate].
    injection Htcp as <-.
    exists x, (exp x / Rsum (exp <$> row))%R.
    split; [reflexivity|]. split; [exact Hp|]. split.
    + reflexivity.
    + split; [exact Hsoft|exact Hbounds].
  - cbn [eval]. rewrite Hlogits, Hlabels, Hwrap, Hxent. reflexivity.
  - rewrite (eval_loss _ _ _ _ _ _ Hlogits Hlabels), Hwrap, Hxent.
    cbn [fmap option_fmap option_map]. rewrite mean_value_ne by exact Hpne.
    reflexivity.
  - change (fold_right Rplus 0%R (map (fun p => (- ln p)%R) ps))
      with (Rsum ((fun p => (- ln p)%R) <$> ps)).
    unfold mean. rewrite length_fmap, Hplen.
    assert (0 < INR (length m))%R as Hpos.
    { apply lt_0_INR. destruct m; [done|cbn; lia]. }
    field. lra.
  - apply mean_ge; [exact Hpne|].
    apply Forall_fmap. eapply Forall_impl; [exact Hprob|].
    intros p Hp. apply neg_ln_bounds, Hp.
  - intros eps Heps. split.
    + rewrite <- exp_0. apply exp_increasing. lra.
    + intros Hclose. apply (mean_lt _ 0 eps); [exact Hpne|].
      apply Forall_fmap.
      pose proof (proj2 (Forall_and _ _) (conj Hprob Hclose)) as Hboth.
      eapply Forall_impl; [exact Hboth|].
      intros p [Hp Hlt]. cbn. split.
      * apply neg_ln_bounds, Hp.
      * apply neg_ln_lt; [apply Hp|exact Hlt].
Qed.

(** ** Inference *)

Section Layers.
Local Open Scope R_scope.

Lemma relu_nonneg x : 0 <= x → relu x = x.
Proof. intros H. unfold relu. apply Rmax_right, H. Qed.

Lemma relu_nonpos x : x <= 0 → relu x = 0.
Proof. intros H. unfold relu. apply Rmax_left, H. Qed.

Lemma relu_ge_0 x : 0 <= relu x.
Proof. unfold relu. apply Rmax_l. Qed.

Lemma dot_from_zeros i n w : dot_from i (repeat 0 n) w = 0.
Proof.
  revert i. induction n as [|n IH]; intros i; [reflexivity|].
  cbn [repeat dot_from]. rewrite IH. lra.
Qed.

End Layers.

Lemma fully_connected_row_length p n a row :
  length (fully_connected_row p n a row) = n.
Proof. unfold fully_connected_row. rewrite length_fmap. apply length_seq. Qed.

Lemma eval_fully_connected feeds sess scope inputs n a m :
  eval feeds sess inputs = Some (VFloat2 m) →
  eval feeds sess (FullyConnected scope inputs n a)
  = Some (VFloat2 (fully_connected_row (layer_params sess scope) n a <$> m)).
Proof. intros H. cbn [eval]. rewrite H. reflexivity. Qed.

(** Every logit [inference] computes has passed through the default
    activation, and every row of logits has 10 entries. *)
Lemma eval_inference feeds sess scope images h1 h2 m :
  eval feeds sess images = Some (VFloat2 m) →
  ∃ logits,
    eval feeds sess (inference_tensor scope images h1 h2) = Some (VFloat2 logits) ∧
    length logits = length m ∧
    Forall (fun row => length row = 10%nat ∧ Forall (fun x => (0 <= x)%R) row) logits.
Proof.
  intros Himages. eexists. split; [|split].
  - unfold inference_tensor.
    pose proof (eval_fully_connected _ _ scope _ h1 (Some Relu) _ Himages) as E1.
    pose proof (eval_fully_connected _ _ (S scope) _ h2 (Some Relu) _ E1) as E2.
    rewrite (eval_fully_connected _ _ _ _ _ _ _ E2). reflexivity.
  - rewrite !length_fmap. reflexivity.
  - rewrite <- !list_fmap_compose. apply Forall_fmap, Forall_forall.
    intros row _. unfold compose. split; [apply fully_connected_row_length|].
    unfold fully_connected_row. apply Forall_fmap, Forall_forall.
    intros j _. apply relu_ge_0.
Qed.

(** C1. On the batch holding the image [one_pixel_image], with hidden widths 1
    and 1 and the layer variables [small_params], the logits [inference]
    returns are all 0, whereas the affine output layer applied to the same
    hidden activations gives -1/80 for every class: the output layer of
    [inference] applies the activation of the hidden layers. *)
Theorem inference_output_layer_activated :
  let images := Placeholder 0 DT_FLOAT in
  let feeds := feed_placeholder_0 (VFloat2 [one_pixel_image]) in
  let sess := initial_session empty_world small_params in
  result (inference images 1 1) empty_world = Some (inference_tensor 0 images 1 1) ∧
  eval feeds sess (inference_tensor 0 images 1 1)
    = Some (VFloat2 [repeat 0%R 10]) ∧
  eval feeds sess (linear_output_tensor 0 images 1 1)
    = Some (VFloat2 [repeat (- 1 / 80)%R 10]).
Proof.
  intros images feeds sess.
  assert (affine (small_params 0) one_pixel_image 0 = (1 / 20)%R) as H1.
  { unfold affine, one_pixel_image. cbn [dot_from]. rewrite dot_from_zeros.
    cbn. lra. }
  assert (affine (small_params 1) [(1 / 20)%R] 0 = (1 / 40)%R) as H2.
  { unfold affine. cbn. lra. }
  assert (∀ j, affine (small_params 2) [(1 / 40)%R] j = (- 1 / 80)%R) as H3.
  { intros j. unfold affine. cbn. lra. }
  assert (eval feeds sess (FullyConnected 0 images 1 (Some Relu))
          = Some (VFloat2 [[(1 / 20)%R]])) as E1.
  { rewrite (eval_fully_connected _ _ _ _ _ _ [one_pixel_image]) by reflexivity.
    cbn. rewrite H1, relu_nonneg by lra. reflexivity. }
  assert (eval feeds sess
            (FullyConnected 1 (FullyConnected 0 images 1 (Some Relu)) 1 (Some Relu))
          = Some (VFloat2 [[(1 / 40)%R]])) as E2.
  { rewrite (eval_fully_connected _ _ _ _ _ _ _ E1).
    cbn. rewrite H2, relu_nonneg by lra. reflexivity. }
  split; [reflexivity|]. split.
  - unfold inference_tensor. rewrite (eval_fully_connected _ _ _ _ _ _ _ E2).
    cbn. rewrite !H3, relu_nonpos by lra. reflexivity.
  - unfold linear_output_tensor. rewrite (eval_fully_connected _ _ _ _ _ _ _ E2).
    cbn. rewrite !H3. reflexivity.
Qed.

(** ** The model factory *)

Lemma key_present_app flag a b :
  util.key_present flag (a ++ b) = util.key_present flag a || util.key_present flag b.
Proof. unfold util.key_present. apply existsb_app. Qed.

Lemma inject_defaults_spec defaults : ∀ args extra,
  independent defaults = true →
  forallb (fun d => negb (util.key_present d.1 extra)) defaults = true →
  inject_defaults defaults (args ++ extra)
  = args ++ extra ++ missing_defaults defaults args.
Proof.
  induction defaults as [|[k v] rest IH]; intros args extra Hind Hextra.
  - cbn. rewrite app_nil_r. reflexivity.
  - cbn [independent] in Hind. apply andb_prop in Hind as [Hk Hind].
    cbn [forallb fst] in Hextra. apply andb_prop in Hextra as [Hkx Hextra].
    apply negb_true_iff in Hkx.
    cbn [inject_defaults fold_left fst snd]. fold (inject_defaults rest).
    unfold util.override_if_not_in_args. rewrite key_present_app, Hkx, orb_false_r.
    cbn [missing_defaults flat_map fst snd]. fold (missing_defaults rest args).
    destruct (util.key_present k args).
    + rewrite IH by assumption. reflexivity.
    + rewrite <- app_assoc, IH; [rewrite <- !app_assoc; reflexivity|assumption|].
      apply forallb_forall. intros d Hd.
      rewrite key_present_app, negb_orb.
      rewrite (proj1 (forallb_forall _ _) Hextra d Hd).
      exact (proj1 (forallb_forall _ _) Hk d Hd).
Qed.

Lemma missing_defaults_present defaults args flag :
  util.key_present flag args = true →
  (∀ d, d ∈ defaults → d.1 = flag ∨ util.key_present flag [d.1; d.2] = false) →
  util.key_present flag (missing_defaults defaults args) = false.
Proof.
  intros Hp. induction defaults as [|d rest IH]; intros Hd; [reflexivity|].
  cbn [missing_defaults flat_map]. fold (missing_defaults rest args).
  rewrite key_present_app, IH, orb_false_r.
  - destruct (Hd d) as [<-| Hother]; [left| |].
    + rewrite Hp. reflexivity.
    + destruct (util.key_present d.1 args); [reflexivity|exact Hother].
  - intros d' Hd'. apply Hd. right. exact Hd'.
Qed.

Lemma missing_defaults_absent defaults args d :
  d ∈ defaults → util.key_present d.1 args = false →
  ∃ before after,
    missing_defaults defaults args = before ++ [d.1; d.2] ++ after.
Proof.
  intros (l1 & l2 & ->)%list_elem_of_split Ha.
  exists (missing_defaults l1 args), (missing_defaults l2 args).
  unfold missing_defaults. rewrite flat_map_app. cbn [flat_map].
  rewrite Ha. reflexivity.
Qed.

Lemma task_defaults_disjoint d d' :
  d ∈ task_defaults → d' ∈ task_defaults →
  d.1 = d'.1 ∨ util.key_present d'.1 [d.1; d.2] = false.
Proof.
  intros Hd Hd'.
  assert (forallb (fun d => forallb (fun d' =>
            bool_decide (d.1 = d'.1) || negb (util.key_present d'.1 [d.1; d.2]))
            task_defaults) task_defaults = true) as Hall
    by (vm_compute; reflexivity).
  apply list_elem_of_In in Hd, Hd'.
  pose proof (proj1 (forallb_forall _ _) Hall d Hd) as H1.
  pose proof (proj1 (forallb_forall _ _) H1 d' Hd') as H2.
  apply orb_prop in H2 as [H2|H2].
  - left. apply bool_decide_eq_true_1 in H2. exact H2.
  - right. apply negb_true_iff in H2. exact H2.
Qed.

(** C5. [create_model] hands argparse a parser with the single option
    --learning_rate, a float with default 0.01.  Whenever argparse returns,
    [create_model] returns a Model with the parsed learning rate and hidden
    widths 128 and 32, and the arguments argparse left over followed by the
    tokens of those of the six defaults whose key the left-over arguments do
    not give: the caller's arguments are all kept, in order; a default whose
    key is present adds no token for that key; a default whose key is absent
    adds its key and its value. *)
Theorem create_model_defaults
    (parse_known_args :
       list argparse.Argument -> list string -> option (gmap string R * list string))
    (sys_argv : list string) (args : gmap string R) (task_args : list string)
    (lr : R) :
  parse_known_args create_model_parser (tail sys_argv) = Some (args, task_args) →
  args !! "learning_rate" = Some lr →
  create_model_parser =
    [{| argparse.option_string := "--learning_rate";
        argparse.type := argparse.float;
        argparse.default := 0.01%R |}] ∧
  task_defaults =
    [("--max_steps", "5000"); ("--batch_size", "100");
     ("--eval_set_size", "10000"); ("--eval_interval_secs", "1");
     ("--log_interval_secs", "1"); ("--min_train_eval_rate", "1")] ∧
  create_model parse_known_args sys_argv =
    Some ({| learning_rate := lr; hidden1 := 128; hidden2 := 32 |},
          task_args ++ missing_defaults task_defaults task_args) ∧
  ∀ flag argument, (flag, argument) ∈ task_defaults →
    (util.key_present flag task_args = true →
     util.key_present flag (missing_defaults task_defaults task_args) = false) ∧
    (util.key_present flag task_args = false →
     ∃ before after,
       missing_defaults task_defaults task_args
       = before ++ [flag; argument] ++ after).
Proof.
  intros Hparse Hlr. split; [reflexivity|]. split; [reflexivity|]. split.
  - unfold create_model. rewrite Hparse. cbn [mbind option_bind].
    change (util.override_if_not_in_args "--min_train_eval_rate" "1" _)
      with (inject_defaults task_defaults task_args).
    rewrite Hlr. cbn [mbind option_bind]. do 2 f_equal.
    rewrite <- (app_nil_r task_args) at 1.
    rewrite inject_defaults_spec by reflexivity. reflexivity.
  - intros flag argument Hin. split.
    + intros Hp. apply missing_defaults_present; [exact Hp|].
      intros d Hd. exact (task_defaults_disjoint d (flag, argument) Hd Hin).
    + intros Ha. exact (missing_defaults_absent _ _ (flag, argument) Hin Ha).
Qed.

(** ** Formatting *)

Lemma round_half_even_nearest (q : Q) :
  (Qabs (inject_Z (round_half_even q) - q) <= 1 # 2)%Q.
Proof.
  unfold round_half_even. cbv zeta.
  pose proof (Qfloor_le q) as Hlo. pose proof (Qlt_floor q) as Hhi.
  rewrite inject_Z_plus in Hhi. change (inject_Z 1) with 1%Q in Hhi.
  apply Qabs_Qle_condition.
  destruct (q - inject_Z (Qfloor q) ?= 1 # 2)%Q eqn:Hc.
  - apply Qeq_alt in Hc.
    assert (q - inject_Z (Qfloor q) <= 1 # 2)%Q as H1 by (rewrite Hc; apply Qle_refl).
    assert (1 # 2 <= q - inject_Z (Qfloor q))%Q as H2 by (rewrite Hc; apply Qle_refl).
    clear Hc.
    destruct (Z.even (Qfloor q)); [|rewrite inject_Z_plus; change (inject_Z 1) with 1%Q];
      generalize dependent (inject_Z (Qfloor q)); intros f ? ? ? ?; split; Lqa.lra.
  - apply Qlt_alt in Hc.
    generalize dependent (inject_Z (Qfloor q)); intros f ? ? ?; split; Lqa.lra.
  - apply Qgt_alt in Hc. rewrite inject_Z_plus. change (inject_Z 1) with 1%Q.
    generalize dependent (inject_Z (Qfloor q)); intros f ? ? ?; split; Lqa.lra.
Qed.

Lemma round_half_even_nonneg (q : Q) : (0 <= q)%Q → 0 <= round_half_even q.
Proof.
  intros Hq. unfold round_half_even. cbv zeta.
  assert (0 <= Qfloor q) as Hf.
  { change 0 with (Qfloor 0). apply Qfloor_resp_le, Hq. }
  destruct (q - inject_Z (Qfloor q) ?= 1 # 2)%Q; [destruct (Z.even _)| |]; lia.
Qed.

(** C9. [format_metric_values] of the pair (0.1234, 0.9876) is
    "loss: 0.123, accuracy: 0.988" and [format_prediction_values] of the list
    [3.14159] is "3.142".  In general the two functions print their first
    two values, respectively their first value, with ['%.3f']: a sign, the
    integer part, a point and exactly three decimal digits, which together
    spell the number of thousandths nearest to the value. *)
Theorem format_three_decimals :
  format_metric_values [double_0_1234; double_0_9876]
    = Some "loss: 0.123, accuracy: 0.988" ∧
  format_prediction_values [double_3_14159] = Some "3.142" ∧
  (∀ loss_value accuracy rest,
     format_metric_values (loss_value :: accuracy :: rest)
     = Some ("loss: " +:+ format_3f loss_value +:+
             ", accuracy: " +:+ format_3f accuracy)) ∧
  (∀ score rest, format_prediction_values (score :: rest) = Some (format_3f score)) ∧
  (∀ x : Q, ∃ n d1 d2 d3 : Z,
     0 <= n ∧
     (Qabs (inject_Z n - Qabs x * 1000) <= 1 # 2)%Q ∧
     0 <= d1 <= 9 ∧ 0 <= d2 <= 9 ∧ 0 <= d3 <= 9 ∧
     n = 1000 * (n / 1000) + 100 * d1 + 10 * d2 + d3 ∧
     format_3f x =
       (if Qlt_le_dec x 0 then "-" else "") +:+ decimal (n / 1000) +:+ "." +:+
       digit d1 +:+ digit d2 +:+ digit d3).
Proof.
  split; [vm_compute; reflexivity|]. split; [vm_compute; reflexivity|].
  split; [reflexivity|]. split; [reflexivity|].
  intros x. set (n := thousandths x).
  exists n, (n / 100 mod 10), (n / 10 mod 10), (n mod 10).
  assert (0 <= n) as Hn.
  { apply round_half_even_nonneg. pose proof (Qabs_nonneg x). 
    apply Qmult_le_0_compat; [assumption|discriminate]. }
  split; [exact Hn|]. split; [apply round_half_even_nearest|].
  repeat split; try (apply Z.mod_pos_bound; lia);
    try (pose proof (Z.mod_pos_bound (n / 100) 10); pose proof (Z.mod_pos_bound (n / 10) 10);
         pose proof (Z.mod_pos_bound n 10); lia).
  clear Hn. generalize n. clear. intros n. 
  Z.div_mod_to_equations. lia.
Qed.

(** ** Labelled batches *)

Lemma float_value_mean_value l : float_value (mean_value l) = true.
Proof. destruct l; reflexivity. Qed.

Lemma sum_and_size_mean_value l :
  ∃ total, sum_and_size (mean_value l) = Some (total, 1%nat).
Proof. destruct l; eexists; reflexivity. Qed.

(** On a batch of well-formed records with labels in [0, 9], the loss and the
    accuracy of the graph [build_graph] builds evaluate, in every session, to
    the mean of one cross entropy and of one 0 or 1 per record. *)
Lemma labelled_batch_evaluates feeds sess args scope h1 h2 ks records :
  reader_batch feeds = Some (ks, records) →
  Forall well_formed_record records →
  Forall (fun ex => ∃ l, label_of ex = Some l ∧ 0 <= l <= 9) records →
  let examples := ReaderExamples args in
  let logits := inference_tensor scope
                  (ParseExample examples training_features "images") h1 h2 in
  let labels := ParseExample examples training_features "labels" in
  ∃ cs bs, eval feeds sess (loss logits labels) = Some (mean_value cs) ∧
           eval feeds sess (evaluation logits labels) = Some (mean_value bs) ∧
           length cs = length records ∧ length bs = length records.
Proof.
  intros Hbatch Hwf Hlabelled examples logits labels.
  assert (eval feeds sess examples = Some (VExamples records)) as Hex
    by (cbn [eval examples]; rewrite Hbatch; reflexivity).
  set (ls := (fun ex => default (-1) (label_of ex)) <$> records).
  assert (eval feeds sess labels = Some (VInt1 ls)) as Hlb.
  { unfold labels.
    rewrite (eval_parse_examples _ _ _ records "labels" _ Hex Hwf eq_refl).
    apply parse_dense_labels, Hwf. }
  assert (eval feeds sess (ParseExample examples training_features "images")
          = Some (VFloat2 (image_of <$> records))) as Himg.
  { rewrite (eval_parse_examples _ _ _ records "images" _ Hex Hwf eq_refl).
    apply parse_dense_images, Hwf. }
  destruct (eval_inference feeds sess scope _ h1 h2 _ Himg)
    as (m & Hlg & Hlen & Hrows).
  fold logits in Hlg.
  assert (length m = length ls) as Hmls.
  { unfold ls. rewrite Hlen, !length_fmap. reflexivity. }
  assert (Forall (fun l => 0 <= l <= 9) ls) as Hls.
  { unfold ls. apply Forall_fmap. eapply Forall_impl; [exact Hlabelled|].
    intros ex (l & Hlab & Hl). cbn. rewrite Hlab. exact Hl. }
  assert (Forall2 (fun row l => (0 <= l < Z.of_nat (length row))%Z) m ls) as Hrange.
  { apply Forall2_same_length_lookup_2; [exact Hmls|].
    intros i row l Hrow Hl.
    destruct (proj1 (Forall_lookup _ _) Hrows i row Hrow) as [-> _].
    pose proof (proj1 (Forall_lookup _ _) Hls i l Hl) as Hb. cbn in Hb. lia. }
  destruct (zip_rows_Some xent_row m ls) as [cs Hcs].
  { eapply Forall2_impl; [exact Hrange|]. intros row l [H0 H1].
    unfold xent_row. rewrite decide_True by done.
    destruct (lookup_lt_is_Some_2 row (Z.to_nat l)) as [x ->]; [lia|]. cbn. eauto. }
  exists cs, (bool_to_float <$> zip_with (in_top_k_row 1) m ls).
  split; [|split; [|split]].
  - rewrite (eval_loss _ _ _ _ _ _ Hlg Hlb), (wrap_int64_labels _ Hls), Hcs.
    reflexivity.
  - rewrite (eval_evaluation _ _ _ _ _ _ Hlg Hlb), decide_True by exact Hmls.
    reflexivity.
  - pose proof (zip_rows_Forall2 _ _ _ _ Hcs) as Hall.
    rewrite <- (Forall2_length _ _ _ Hall), length_zip_with, <- Hmls, Nat.min_id.
    rewrite Hlen, length_fmap. reflexivity.
  - rewrite length_fmap, length_zip_with, <- Hmls, Nat.min_id, Hlen, length_fmap.
    reflexivity.
Qed.

Lemma labelled_record_well_formed : Forall well_formed_record [labelled_record].
Proof.
  constructor; [|constructor].
  split; [eexists; split; reflexivity|]. right. eexists. reflexivity.
Qed.

Lemma labelled_record_labelled :
  Forall (fun ex => ∃ l, label_of ex = Some l ∧ 0 <= l <= 9) [labelled_record].
Proof. constructor; [|constructor]. exists 7. split; [reflexivity|lia]. Qed.

(** The loss of the sample graph on the batch holding [labelled_record] is a
    number, in every session. *)
Lemma sample_loss_evaluates sess :
  ∃ L, eval (feed_reader [labelled_record]) sess sample_loss = Some (VFloat0 L).
Proof.
  destruct (labelled_batch_evaluates (feed_reader [labelled_record]) sess
              (reader_call ["train"] 1 true) 0 HIDDEN1 HIDDEN2 [] [labelled_record]
              eq_refl labelled_record_well_formed labelled_record_labelled)
    as (cs & bs & Hloss & _ & Hlen & _).
  destruct cs as [|c cs]; [discriminate Hlen|].
  exists (mean (c :: cs)). exact Hloss.
Qed.

(** ** The statements at sample inputs *)

(** The train op for the loss of the sample graph, run once on a batch of
    one labelled record with zero gradients: the counter goes from 0 to 1. *)
Lemma training_global_step_witness :
  let feeds := feed_reader [labelled_record] in
  trained_scopes sample_loss ≠ [] ∧
  inference sample_images HIDDEN1 HIDDEN2 empty_world
    = Some (sample_logits, world_with_layers) ∧
  ∃ train_op step w',
    training sample_loss 0.01%R world_with_layers = Some ((train_op, step), w') ∧
    ∃ sess',
      run zero_gradients feeds (initial_session w' small_params) train_op
        = Some sess' ∧
      eval feeds sess' step = Some (VInt0 1).
Proof.
  intros feeds.
  assert (trained_scopes sample_loss ≠ []) as Htrained by discriminate.
  split; [exact Htrained|]. split; [reflexivity|].
  destruct (training_global_step zero_gradients sample_loss 0.01%R
              world_with_layers Htrained)
    as (train_op & step & w' & Htrain & Hinit & Hstep & _).
  exists train_op, step, w'. split; [exact Htrain|].
  destruct (sample_loss_evaluates (initial_session w' small_params)) as [L HL].
  apply (Hstep feeds (initial_session w' small_params) (VFloat0 L) 0 HL
           (Hinit small_params feeds)).
  lia.
Defined.

(** The same train op run once, on the same batch, in a session whose
    counter holds 2147483647: the run completes and leaves the counter at
    -2147483648, not at 2147483648, so that not every completed run leaves
    the counter exactly 1 higher. *)
Lemma training_global_step_wraps :
  let feeds := feed_reader [labelled_record] in
  ∃ train_op step w' sess',
    training sample_loss 0.01%R world_with_layers = Some ((train_op, step), w') ∧
    eval feeds session_at_int32_max step = Some (VInt0 2147483647) ∧
    run zero_gradients feeds session_at_int32_max train_op = Some sess' ∧
    eval feeds sess' step = Some (VInt0 (-2147483648)) ∧
    ¬ counts_every_run zero_gradients train_op step.
Proof.
  intros feeds.
  destruct (sample_loss_evaluates session_at_int32_max) as [L HL].
  destruct (run_minimize_completes zero_gradients feeds session_at_int32_max
              0.01%R sample_loss 0%nat (VFloat0 L) 2147483647 HL eq_refl eq_refl)
    as [sess' Hrun].
  pose proof (run_minimize_step _ _ _ _ _ _ _ _ Hrun eq_refl) as Hstep.
  eexists _, _, _, sess'. split; [apply training_run; discriminate|].
  change (length (variables world_with_layers)) with 0%nat.
  split; [reflexivity|]. split; [exact Hrun|].
  split; [rewrite eval_variable, Hstep; reflexivity|].
  intros Hcounts.
  pose proof (Hcounts feeds session_at_int32_max sess' 2147483647 eq_refl Hrun)
    as Hnext.
  rewrite eval_variable, Hstep in Hnext. discriminate Hnext.
Qed.

(** One example whose true label 3 has the largest logit: accuracy 1. *)
Lemma evaluation_accuracy_witness :
  let feeds := feed_logits_labels [peak_at_3] [3] in
  let sess := initial_session empty_world small_params in
  let logits := Placeholder 0 DT_FLOAT in
  let labels := Placeholder 1 DT_INT64 in
  eval feeds sess logits = Some (VFloat2 [peak_at_3]) ∧
  eval feeds sess labels = Some (VInt1 [3]) ∧
  [peak_at_3] ≠ [] ∧
  length [peak_at_3] = length [3] ∧
  Forall (fun row => length row = NUM_CLASSES) [peak_at_3] ∧
  Forall (fun l => 0 <= l <= 9) [3] ∧
  eval feeds sess (evaluation logits labels) = Some (VFloat0 1%R).
Proof.
  intros feeds sess logits labels.
  assert (Forall (fun row => length row = NUM_CLASSES) [peak_at_3]) as Hrows
    by (repeat constructor).
  assert (Forall (fun l => 0 <= l <= 9) [3]) as Hls by (repeat constructor; lia).
  assert ([peak_at_3] ≠ []) as Hne by discriminate.
  repeat (split; [first [reflexivity | assumption]|]).
  destruct (evaluation_accuracy feeds sess logits labels [peak_at_3] [3]
              eq_refl eq_refl Hne eq_refl Hrows Hls)
    as (a & Heval & _ & Hone & _).
  rewrite Heval, Hone; [reflexivity|].
  constructor; [|constructor].
  exists 1%R. split; [reflexivity|].
  intros j y Hj Hy. 
  do 10 (destruct j as [|j];
         [first [exfalso; apply Hj; reflexivity
                | cbn in Hy; injection Hy as <-; lra]|]).
  discriminate.
Defined.

(** One example with ten equal logits and label 0: the true class has
    probability 1/10 and the loss is ln 10. *)
Lemma loss_cross_entropy_witness :
  let feeds := feed_logits_labels [flat_logits] [0] in
  let sess := initial_session empty_world small_params in
  let logits := Placeholder 0 DT_FLOAT in
  let labels := Placeholder 1 DT_INT64 in
  eval feeds sess logits = Some (VFloat2 [flat_logits]) ∧
  eval feeds sess labels = Some (VInt1 [0]) ∧
  [flat_logits] ≠ [] ∧
  length [flat_logits] = length [0] ∧
  Forall (fun row => length row = NUM_CLASSES) [flat_logits] ∧
  Forall (fun l => 0 <= l <= 9) [0] ∧
  eval feeds sess (loss logits labels) = Some (VFloat0 (ln 10)).
Proof.
  intros feeds sess logits labels.
  assert (Forall (fun row => length row = NUM_CLASSES) [flat_logits]) as Hrows
    by (repeat constructor).
  assert (Forall (fun l => 0 <= l <= 9) [0]) as Hls by (repeat constructor; lia).
  assert ([flat_logits] ≠ []) as Hne by discriminate.
  repeat (split; [first [reflexivity | assumption]|]).
  destruct (loss_cross_entropy feeds sess logits labels [flat_logits] [0]
              eq_refl eq_refl Hne eq_refl Hrows Hls)
    as (_ & _ & ps & L & Hplen & Heach & _ & Heval & Hsum & _).
  destruct (Heach 0%nat flat_logits 0 eq_refl eq_refl)
    as (x & p & Hx & Hp & Hpx & _).
  destruct ps as [|p0 [|p1 ps]]; try discriminate Hplen.
  assert (x = 0%R) as -> by (apply (inj Some); symmetry; exact Hx).
  assert (p0 = p) as -> by (apply (inj Some); exact Hp).
  rewrite Heval. do 2 f_equal.
  assert (p = (/ 10)%R) as ->.
  { rewrite Hpx. unfold flat_logits. cbn [repeat map fold_right].
    rewrite exp_0. field. }
  cbn [length INR map fold_right] in Hsum.
  rewrite ln_Rinv in Hsum by lra. lra.
Defined.

(** A labelled and an unlabelled record: the images come back unchanged and
    the labels are 7 and the default -1. *)
Lemma parse_examples_roundtrip_witness :
  let records := [labelled_record; unlabelled_record] in
  let feeds := feed_reader records in
  let sess := initial_session empty_world small_params in
  let examples := ReaderExamples (reader_call [] 2 false) in
  eval feeds sess examples = Some (VExamples records) ∧
  Forall well_formed_record records ∧
  ∃ images labels,
    parse_examples examples !! "images" = Some images ∧
    parse_examples examples !! "labels" = Some labels ∧
    eval feeds sess images
      = Some (VFloat2 [repeat 0%R 784; repeat 1%R 784]) ∧
    eval feeds sess labels = Some (VInt1 [7; -1]).
Proof.
  intros records feeds sess examples.
  assert (Forall well_formed_record records) as Hwf.
  { constructor; [|constructor; [|constructor]].
    - split; [eexists; split; reflexivity|]. right. eexists. reflexivity.
    - split; [eexists; split; reflexivity|]. left. reflexivity. }
  split; [reflexivity|]. split; [exact Hwf|].
  destruct (parse_examples_roundtrip feeds sess examples records eq_refl Hwf)
    as (_ & images & labels & m & ls & Hi & Hl & Hei & Hel & Hmlen & _ & Hllen & Hrec).
  exists images, labels. split; [exact Hi|]. split; [exact Hl|].
  rewrite Hei, Hel.
  destruct (Hrec 0%nat labelled_record eq_refl) as (Hi0 & Hl0 & _).
  destruct (Hrec 1%nat unlabelled_record eq_refl) as (Hi1 & _ & Hl1).
  specialize (Hi0 _ eq_refl). specialize (Hl0 _ eq_refl).
  specialize (Hi1 _ eq_refl). specialize (Hl1 eq_refl).
  destruct m as [|r0 [|r1 [|]]]; try discriminate Hmlen.
  destruct ls as [|l0 [|l1 [|]]]; try discriminate Hllen.
  assert (r0 = repeat 0%R 784) as -> by (apply (inj Some); exact Hi0).
  assert (r1 = repeat 1%R 784) as -> by (apply (inj Some); exact Hi1).
  assert (l0 = 7) as -> by (apply (inj Some); exact Hl0).
  assert (l1 = -1) as -> by (apply (inj Some); exact Hl1).
  split; reflexivity.
Defined.

(** The caller gives --batch_size=50 and nothing else: the other five
    defaults are appended and no --batch_size token is. *)
Lemma create_model_defaults_witness :
  let sys_argv := ["task.py"; "--batch_size=50"] in
  argparse.parse_nothing create_model_parser (tail sys_argv)
    = Some ({[ "learning_rate" := 0.01%R ]}, ["--batch_size=50"]) ∧
  ({[ "learning_rate" := 0.01%R ]} : gmap string R) !! "learning_rate"
    = Some 0.01%R ∧
  create_model argparse.parse_nothing sys_argv
    = Some ({| learning_rate := 0.01%R; hidden1 := 128; hidden2 := 32 |},
            ["--batch_size=50"; "--max_steps"; "5000";
             "--eval_set_size"; "10000"; "--eval_interval_secs"; "1";
             "--log_interval_secs"; "1"; "--min_train_eval_rate"; "1"]).
Proof.
  intros sys_argv.
  assert (argparse.parse_nothing create_model_parser (tail sys_argv)
          = Some ({[ "learning_rate" := 0.01%R ]}, ["--batch_size=50"])) as Hparse
    by reflexivity.
  assert (({[ "learning_rate" := 0.01%R ]} : gmap string R) !! "learning_rate"
          = Some 0.01%R) as Hlr by apply lookup_singleton_eq.
  split; [exact Hparse|]. split; [exact Hlr|].
  destruct (create_model_defaults argparse.parse_nothing sys_argv _ _ _ Hparse Hlr)
    as (_ & _ & Heq & _).
  rewrite Heq. reflexivity.
Defined.

(** * Further properties *)

(** ** Labels outside the classes *)



(** ** Accuracy with ties *)

Lemma in_top_k_row_is_max row label :
  0 <= label < Z.of_nat (length row) →
  in_top_k_row 1 row label = true ↔ true_label_is_max row label.
Proof.
  intros [H0 H1]. unfold in_top_k_row, true_label_is_max.
  rewrite target_score_nonneg by exact H0.
  destruct (lookup_lt_is_Some_2 row (Z.to_nat label)) as [x Hx]; [lia|].
  rewrite Hx, bool_decide_eq_true. split.
  - intros Hlen. exists x. split; [reflexivity|]. intros y Hy.
    destruct (Rle_dec y x) as [Hle|Hnle]; [exact Hle|].
    assert (y ∈ filter (fun y => Rlt x y) row) as Hin
      by (apply list_elem_of_filter; split; [lra|exact Hy]).
    destruct (filter (fun y => Rlt x y) row); [inversion Hin|cbn in Hlen; lia].
  - intros [x' [[= <-] Hmax]].
    destruct (filter (fun y => Rlt x y) row) as [|y ys] eqn:Hf; [cbn; lia|].
    assert (y ∈ filter (fun y => Rlt x y) row) as Hin by (rewrite Hf; left).
    apply list_elem_of_filter in Hin as [Hlt Hy].
    specialize (Hmax y Hy). lra.
Qed.

Lemma Rsum_bool_to_float bs :
  Rsum (bool_to_float <$> bs) = INR (count_true bs).
Proof.
  unfold count_true. induction bs as [|[] bs IH].
  - reflexivity.
  - cbn [fmap list_fmap Rsum fold_right bool_to_float]. fold (Rsum (bool_to_float <$> bs)).
    rewrite filter_cons_True by reflexivity. cbn [length]. rewrite S_INR, IH. lra.
  - cbn [fmap list_fmap Rsum fold_right bool_to_float]. fold (Rsum (bool_to_float <$> bs)).
    rewrite filter_cons_False by discriminate. rewrite IH. lra.
Qed.

(** X2. On a non-empty batch of rows of 10 logits with labels in [0, 9], the
    accuracy [evaluation] computes is the number of examples whose true-label
    logit is a maximum of its row, ties counted as correct, divided by the
    batch size. *)
Theorem evaluation_counts_ties (feeds : Feeds) (sess : Session)
    (logits labels : tensor) (m : list (list R)) (ls : list Z) :
  eval feeds sess logits = Some (VFloat2 m) →
  eval feeds sess labels = Some (VInt1 ls) →
  m ≠ [] →
  length m = length ls →
  Forall (fun row => length row = NUM_CLASSES) m →
  Forall (fun l => 0 <= l <= 9) ls →
  ∃ correct : list bool,
    Forall2 (fun p b => b = true ↔ true_label_is_max p.1 p.2) (zip m ls) correct ∧
    eval feeds sess (evaluation logits labels)
    = Some (VFloat0 (INR (count_true correct) / INR (length m))%R).
Proof.
  intros Hm Hls Hne Hlen Hrows Hlabels.
  set (bs := zip_with (in_top_k_row 1) m ls).
  assert (length bs = length m) as Hblen.
  { unfold bs. rewrite length_zip_with, <- Hlen. apply Nat.min_id. }
  exists bs. split.
  - apply Forall2_same_length_lookup_2.
    + rewrite length_zip_with, Hblen, <- Hlen. apply Nat.min_id.
    + intros i [row l] b Hzip Hb. cbn [fst snd].
      apply lookup_zip_with_Some in Hzip as (row' & l' & [= <- <-] & Hrow & Hl).
      apply lookup_zip_with_Some in Hb as (row' & l' & -> & Hrow' & Hl').
      rewrite Hrow in Hrow'. injection Hrow' as <-.
      rewrite Hl in Hl'. injection Hl' as <-.
      apply in_top_k_row_is_max.
      rewrite (proj1 (Forall_lookup _ _) Hrows i row Hrow).
      pose proof (proj1 (Forall_lookup _ _) Hlabels i l Hl) as Hb.
      cbn in Hb. unfold NUM_CLASSES. lia.
  - rewrite (eval_evaluation _ _ _ _ _ _ Hm Hls), decide_True by exact Hlen.
    fold bs. rewrite mean_value_ne.
    + do 2 f_equal. unfold mean.
      rewrite Rsum_bool_to_float, length_fmap, Hblen. reflexivity.
    + intros Hnil. apply fmap_nil_inv in Hnil. rewrite Hnil in Hblen.
      destruct m; [done|discriminate].
Qed.

(** ** Uniform and shifted logits *)

Lemma lookup_repeat {A} (c : A) n i : (i < n)%nat → repeat c n !! i = Some c.
Proof.
  revert i. induction n as [|n IH]; intros [|i] H; try lia; [reflexivity|].
  cbn. apply IH. lia.
Qed.

Lemma elem_of_repeat {A} (c y : A) n : y ∈ repeat c n → y = c.
Proof. intros H. apply list_elem_of_In in H. exact (repeat_spec n c y H). Qed.

Section Softmax.
Local Open Scope R_scope.

Lemma Rsum_exp_repeat c n : Rsum (exp <$> repeat c n) = INR n * exp c.
Proof.
  induction n as [|n IH]; [cbn; lra|].
  cbn [repeat fmap list_fmap Rsum fold_right]. fold (Rsum (exp <$> repeat c n)).
  rewrite IH, S_INR. lra.
Qed.

Lemma Rsum_exp_shift c row :
  Rsum (exp <$> shift_row c row) = exp c * Rsum (exp <$> row).
Proof.
  unfold shift_row. induction row as [|x row IH]; [cbn; lra|].
  cbn [fmap list_fmap Rsum fold_right].
  fold (Rsum (exp <$> ((fun x => x + c) <$> row))). fold (Rsum (exp <$> row)).
  rewrite IH, exp_plus. lra.
Qed.

Lemma lookup_shift_row c row i :
  shift_row c row !! i = (fun x => x + c) <$> row !! i.
Proof. apply list_lookup_fmap. Qed.

Lemma xent_row_uniform c l :
  (0 <= l <= 9)%Z → xent_row (repeat c NUM_CLASSES) l = Some (ln 10).
Proof.
  intros Hl. unfold xent_row. rewrite decide_True by lia.
  rewrite lookup_repeat by (unfold NUM_CLASSES; lia). cbn [mbind option_bind].
  f_equal. rewrite Rsum_exp_repeat.
  rewrite ln_mult; [|unfold NUM_CLASSES; cbn; lra|apply exp_pos].
  rewrite ln_exp. unfold NUM_CLASSES. cbn [INR]. 
  replace (1 + 1 + 1 + 1 + 1 + 1 + 1 + 1 + 1 + 1) with 10 by lra. lra.
Qed.

Lemma xent_row_shift c row l : xent_row (shift_row c row) l = xent_row row l.
Proof.
  unfold xent_row. destruct (decide (0 <= l)%Z); [|reflexivity].
  rewrite lookup_shift_row.
  destruct (row !! Z.to_nat l) as [x|] eqn:Hx; [|reflexivity].
  cbn [fmap option_fmap option_map mbind option_bind]. f_equal.
  pose proof (Rsum_exp_ge row _ x Hx). pose proof (exp_pos x).
  rewrite Rsum_exp_shift, ln_mult by (try apply exp_pos; lra).
  rewrite ln_exp. lra.
Qed.

Lemma filter_gt_shift c x row :
  length (filter (fun y => Rlt (x + c) y) (shift_row c row))
  = length (filter (fun y => Rlt x y) row).
Proof.
  unfold shift_row. induction row as [|y row IH]; [reflexivity|].
  cbn [fmap list_fmap]. rewrite !filter_cons.
  destruct (decide (x + c < y + c)), (decide (x < y)); cbn [length]; try lra;
    rewrite IH; reflexivity.
Qed.

Lemma in_top_k_row_shift k c row l :
  in_top_k_row k (shift_row c row) l = in_top_k_row k row l.
Proof.
  unfold in_top_k_row, target_score. destruct (decide (0 <= l)%Z); [|reflexivity].
  rewrite lookup_shift_row.
  destruct (row !! Z.to_nat l) as [x|]; [|reflexivity].
  cbn [fmap option_fmap option_map].
  rewrite filter_gt_shift. reflexivity.
Qed.

End Softmax.

Lemma in_top_k_row_uniform c l :
  0 <= l <= 9 → in_top_k_row 1 (repeat c NUM_CLASSES) l = true.
Proof.
  intros Hl. apply in_top_k_row_is_max.
  { rewrite repeat_length. unfold NUM_CLASSES. lia. }
  exists c. split; [apply lookup_repeat; unfold NUM_CLASSES; lia|].
  intros y Hy. rewrite (elem_of_repeat _ _ _ Hy). lra.
Qed.

(** X3. When every row of logits is constant (all ten classes score the
    same, as for a network whose output is dead), the loss is ln 10 and the
    accuracy is 1, whatever the labels in [0, 9] are. *)
Theorem uniform_logits_loss_and_accuracy (feeds : Feeds) (sess : Session)
    (logits labels : tensor) (m : list (list R)) (ls : list Z) :
  eval feeds sess logits = Some (VFloat2 m) →
  eval feeds sess labels = Some (VInt1 ls) →
  m ≠ [] →
  length m = length ls →
  Forall (fun row => ∃ c, row = repeat c NUM_CLASSES) m →
  Forall (fun l => 0 <= l <= 9) ls →
  eval feeds sess (loss logits labels) = Some (VFloat0 (ln 10)) ∧
  eval feeds sess (evaluation logits labels) = Some (VFloat0 1%R).
Proof.
  intros Hm Hls Hne Hlen Hrows Hlabels.
  assert (wrap_int64 <$> ls = ls) as Hwrap.
  { clear -Hlabels. induction Hlabels as [|l ls Hl _ IH]; [reflexivity|].
    cbn. rewrite IH, wrap_int64_small by lia. reflexivity. }
  assert (Forall2 (fun row l => (∃ c, row = repeat c NUM_CLASSES) ∧ 0 <= l <= 9)
            m ls) as Hboth.
  { apply Forall2_same_length_lookup_2; [exact Hlen|].
    intros i row l Hrow Hl. split.
    - exact (proj1 (Forall_lookup _ _) Hrows i row Hrow).
    - exact (proj1 (Forall_lookup _ _) Hlabels i l Hl). }
  split.
  - rewrite (eval_loss _ _ _ _ _ _ Hm Hls), Hwrap.
    destruct (zip_rows_Some xent_row m ls) as [cs Hcs].
    { eapply Forall2_impl; [exact Hboth|]. intros row l [[c ->] Hl].
      rewrite xent_row_uniform by exact Hl. eauto. }
    destruct (zip_rows_Forall xent_row
                (fun row l => (∃ c, row = repeat c NUM_CLASSES) ∧ 0 <= l <= 9)
                (fun x => x = ln 10) m ls)
      with (cs := cs) as [Hall Hclen]; [|exact Hboth|exact Hcs|].
    { intros row l x [[c ->] Hl]. rewrite xent_row_uniform by exact Hl.
      intros [= <-]. reflexivity. }
    assert (cs ≠ []) as Hcne.
    { destruct cs; [|done]. destruct m; [done|discriminate]. }
    rewrite Hcs. cbn [fmap option_fmap option_map].
    rewrite mean_value_ne by exact Hcne.
    do 2 f_equal. apply mean_const; [exact Hcne|exact Hall].
  - rewrite (eval_evaluation _ _ _ _ _ _ Hm Hls), decide_True by exact Hlen.
    set (bs := zip_with (in_top_k_row 1) m ls).
    assert (bool_to_float <$> bs ≠ []) as Hbne.
    { unfold bs. destruct m as [|row m]; [done|]. destruct ls; discriminate. }
    rewrite mean_value_ne by exact Hbne.
    do 2 f_equal. apply mean_const; [exact Hbne|].
    apply Forall_fmap. unfold bs.
    eapply Forall_zip_with; [|exact Hboth].
    intros row l [[c ->] Hl]. cbn beta.
    rewrite in_top_k_row_uniform by exact Hl. reflexivity.
Qed.

(** X4. Adding a constant to all logits of an example, a different one for
    each example if one likes, changes neither the loss nor the accuracy of
    the batch (nor whether they can be evaluated). *)
Theorem loss_and_accuracy_shift_invariant (feeds : Feeds) (sess : Session)
    (logits shifted labels : tensor) (m : list (list R)) (cs : list R)
    (ls : list Z) :
  eval feeds sess logits = Some (VFloat2 m) →
  eval feeds sess shifted = Some (VFloat2 (zip_with shift_row cs m)) →
  length cs = length m →
  eval feeds sess labels = Some (VInt1 ls) →
  eval feeds sess (loss shifted labels) = eval feeds sess (loss logits labels) ∧
  eval feeds sess (evaluation shifted labels)
  = eval feeds sess (evaluation logits labels).
Proof.
  intros Hm Hs Hlen Hls.
  assert (∀ (f : list R → Z → option R),
            (∀ c row l, f (shift_row c row) l = f row l) →
            Forall2 (fun r r' => ∀ l, f r' l = f r l) m (zip_with shift_row cs m))
    as HR.
  { intros f Hf. clear -Hlen Hf. revert cs Hlen.
    induction m as [|row m IH]; intros [|c cs] Hlen; try discriminate; [constructor|].
    cbn [zip_with]. constructor; [intros l; apply Hf|apply IH; cbn in Hlen; lia]. }
  split.
  - rewrite (eval_loss _ _ _ _ _ _ Hm Hls), (eval_loss _ _ _ _ _ _ Hs Hls).
    rewrite (zip_rows_ext xent_row m); [reflexivity|].
    apply HR. intros c row l. apply xent_row_shift.
  - rewrite (eval_evaluation _ _ _ _ _ _ Hm Hls), (eval_evaluation _ _ _ _ _ _ Hs Hls).
    rewrite length_zip_with, Hlen, Nat.min_id.
    destruct (decide (length m = length ls)); [|reflexivity].
    do 3 f_equal. clear -Hlen. revert cs ls Hlen.
    induction m as [|row m IH]; intros [|c cs] ls Hlen; try discriminate;
      [reflexivity|].
    destruct ls as [|l ls]; [reflexivity|].
    cbn [zip_with]. rewrite in_top_k_row_shift, (IH cs ls) by (cbn in Hlen; lia).
    reflexivity.
Qed.

(** ** The shape of the logits *)

Lemma layer_input_ok_matrix images :
  dtype_of images = Some DT_FLOAT → rank_of images = Some 2%nat →
  layer_input_ok images = true.
Proof. intros Hd Hr. unfold layer_input_ok. rewrite Hd, Hr. reflexivity. Qed.

(** X5. [inference] raises when its input has entries that are not floats or
    is a scalar or a vector by construction.
    For an input that is a float matrix by construction, and positive hidden
    widths, it opens exactly three new variable scopes and changes nothing
    else in the graph; its result is again a float matrix, and on every batch
    of images that result evaluates to one row of 10 logits per image, none
    of them negative; when the input does not evaluate, neither does the
    result. *)
Theorem inference_logits_shape (images : tensor) (h1 h2 : nat) (w : World) :
  (layer_input_ok images = false → inference images h1 h2 w = None) ∧
  (dtype_of images = Some DT_FLOAT → rank_of images = Some 2%nat →
   (0 < h1)%nat → (0 < h2)%nat →
   ∃ t w',
     inference images h1 h2 w = Some (t, w') ∧
     w' = set_next_scope (S (S (S (next_scope w)))) w ∧
     dtype_of t = Some DT_FLOAT ∧ rank_of t = Some 2%nat ∧
     (∀ feeds sess m,
        eval feeds sess images = Some (VFloat2 m) →
        ∃ logits,
          eval feeds sess t = Some (VFloat2 logits) ∧
          length logits = length m ∧
          Forall (fun row => length row = 10%nat ∧
                             Forall (fun x => (0 <= x)%R) row) logits) ∧
     (∀ feeds sess,
        (∀ m, eval feeds sess images ≠ Some (VFloat2 m)) →
        eval feeds sess t = None)).
Proof.
  split; [apply inference_raises|].
  intros Hd Hr _ _.
  eexists _, _.
  split; [apply inference_run, layer_input_ok_matrix; assumption|].
  split; [reflexivity|]. split; [exact Hd|]. split; [exact Hr|]. split.
  - intros feeds sess m Hm. apply eval_inference, Hm.
  - intros feeds sess Hno. unfold inference_tensor. cbn [eval].
    destruct (eval feeds sess images) as [[]|]; try reflexivity.
    exfalso. eapply Hno. reflexivity.
Qed.

(** ** Records that cannot be parsed *)

Lemma parse_example_lookup_inv serialized features key t :
  tf.parse_example serialized features !! key = Some t →
  t = ParseExample serialized features key ∧ is_Some (features !! key).
Proof.
  unfold tf.parse_example. rewrite map_lookup_imap.
  destruct (features !! key) as [spec|]; cbn; [|discriminate].
  intros [= <-]. split; [reflexivity|eauto].
Qed.

Lemma eval_parse_example_None feeds sess serialized features records key0 spec0 key :
  eval feeds sess serialized = Some (VExamples records) →
  features !! key0 = Some spec0 →
  parse_dense spec0 key0 records = None →
  eval feeds sess (ParseExample serialized features key) = None.
Proof.
  intros Hs Hk Hnone. cbn [eval]. rewrite Hs.
  rewrite bool_decide_eq_false_2; [reflexivity|].
  intros Hall. specialize (Hall key0 spec0 Hk). cbn beta in Hall.
  rewrite Hnone in Hall.
  destruct Hall as [? ?]. discriminate.
Qed.

Lemma parse_dense_None spec key records i ex :
  records !! i = Some ex →
  feature_or_default spec (ex !! key) ≫= check_feature spec = None →
  parse_dense spec key records = None.
Proof.
  intros Hi Hex. unfold parse_dense.
  rewrite (mapM_None_2 _ records); [reflexivity|].
  apply Exists_exists. exists ex. split; [|exact Hex].
  apply list_elem_of_lookup. eauto.
Qed.

(** X6. One bad record spoils the whole batch: if some record has no
    "images" feature of exactly 784 floats, or has a "labels" feature that is
    not a single integer, then neither field [parse_examples] returns can be
    evaluated, not even the one the record is fine for. *)
Theorem parse_examples_rejects_batch (feeds : Feeds) (sess : Session)
    (examples : tensor) (records : list Example) (i : nat) (ex : Example) :
  eval feeds sess examples = Some (VExamples records) →
  records !! i = Some ex →
  (∀ img, ex !! "images" = Some (FloatList img) → length img ≠ 784%nat) ∨
  (∃ f, ex !! "labels" = Some f ∧ ∀ l, f ≠ Int64List [l]) →
  ∀ key t, parse_examples examples !! key = Some t → eval feeds sess t = None.
Proof.
  intros Hex Hi Hbad key t Ht. rewrite parse_examples_eq in Ht.
  apply parse_example_lookup_inv in Ht as [-> _].
  destruct Hbad as [Himg | (f & Hf & Hnot)].
  - eapply (eval_parse_example_None _ _ _ _ records "images");
      [exact Hex|reflexivity|].
    eapply parse_dense_None; [exact Hi|].
    destruct (ex !! "images") as [[| img |]|] eqn:Hlook; try reflexivity.
    cbn [feature_or_default mbind option_bind check_feature fl_dtype fl_shape].
    rewrite decide_False; [reflexivity|].
    intros Hlen. apply (Himg img eq_refl). rewrite Hlen. reflexivity.
  - eapply (eval_parse_example_None _ _ _ _ records "labels");
      [exact Hex|reflexivity|].
    eapply parse_dense_None; [exact Hi|]. rewrite Hf.
    destruct f as [| |[|l [|l' ls]]]; try reflexivity.
    exfalso. exact (Hnot l eq_refl).
Qed.

(** ** The outputs of the prediction graph *)

Section SoftmaxRows.
Local Open Scope R_scope.

Lemma Rsum_exp_pos row : row ≠ [] → 0 < Rsum (exp <$> row).
Proof.
  destruct row as [|x row]; [done|]. intros _.
  pose proof (Rsum_exp_ge (x :: row) 0 x eq_refl). pose proof (exp_pos x). lra.
Qed.

Lemma Rsum_div (f : R → R) (s : R) row :
  Rsum ((fun x => f x / s) <$> row) = Rsum (f <$> row) / s.
Proof.
  induction row as [|x row IH]; [cbn; lra|].
  cbn [fmap list_fmap Rsum fold_right].
  fold (Rsum ((fun x => f x / s) <$> row)). fold (Rsum (f <$> row)).
  rewrite IH. lra.
Qed.

Lemma softmax_row_distribution row :
  row ≠ [] → is_distribution (softmax_row row).
Proof.
  intros Hne. pose proof (Rsum_exp_pos row Hne) as Hs. unfold softmax_row. split.
  - apply Forall_fmap, Forall_forall. intros x _. cbn.
    apply Rdiv_lt_0_compat; [apply exp_pos|exact Hs].
  - rewrite (Rsum_div exp). unfold Rdiv. apply Rinv_r. lra.
Qed.

Lemma argmax_from_spec l : ∀ bi b i,
  (argmax_from bi b i l = bi ∧ ∀ y, y ∈ l → y <= b) ∨
  (∃ k x, argmax_from bi b i l = (i + k)%nat ∧ l !! k = Some x ∧ b < x ∧
          ∀ y, y ∈ l → y <= x).
Proof.
  induction l as [|x l IH]; intros bi b i.
  - left. split; [reflexivity|]. intros y Hy. inversion Hy.
  - cbn [argmax_from]. destruct (decide (b < x)) as [Hlt|Hge].
    + right. destruct (IH i x (S i)) as [[-> Hall]|(k & x' & -> & Hk & Hlt' & Hall)].
      * exists O, x. split; [lia|]. split; [reflexivity|]. split; [exact Hlt|].
        intros y Hy. apply elem_of_cons in Hy as [->|Hy]; [lra|apply Hall, Hy].
      * exists (S k), x'. split; [lia|]. split; [exact Hk|]. split; [lra|].
        intros y Hy. apply elem_of_cons in Hy as [->|Hy]; [lra|apply Hall, Hy].
    + destruct (IH bi b (S i)) as [[-> Hall]|(k & x' & -> & Hk & Hlt' & Hall)].
      * left. split; [reflexivity|].
        intros y Hy. apply elem_of_cons in Hy as [->|Hy]; [lra|apply Hall, Hy].
      * right. exists (S k), x'. split; [lia|]. split; [exact Hk|]. split; [exact Hlt'|].
        intros y Hy. apply elem_of_cons in Hy as [->|Hy]; [lra|apply Hall, Hy].
Qed.

Lemma argmax_row_spec row : row ≠ [] → is_argmax row (argmax_row row).
Proof.
  destruct row as [|x l]; [done|]. intros _. unfold argmax_row, is_argmax.
  destruct (argmax_from_spec l O x 1%nat) as [[-> Hall]|(k & x' & -> & Hk & Hlt & Hall)].
  - split; [cbn [length]; lia|]. exists x. split; [reflexivity|].
    intros y Hy. apply elem_of_cons in Hy as [->|Hy]; [lra|apply Hall, Hy].
  - pose proof (lookup_lt_Some _ _ _ Hk) as Hlen.
    split; [cbn [length]; lia|]. exists x'. split.
    + rewrite Nat2Z.id. exact Hk.
    + intros y Hy. apply elem_of_cons in Hy as [->|Hy]; [lra|apply Hall, Hy].
Qed.

End SoftmaxRows.

Lemma parse_dense_image records :
  Forall well_formed_prediction_record records →
  ∃ m, parse_dense {| fl_shape := [IMAGE_PIXELS]; fl_dtype := DT_FLOAT;
                      fl_default_value := None |} "image" records
       = Some (VFloat2 m) ∧ length m = length records.
Proof.
  intros Hwf. unfold parse_dense.
  destruct (mapM_is_Some_2
              (fun ex : Example =>
                 feature_or_default
                   {| fl_shape := [IMAGE_PIXELS]; fl_dtype := DT_FLOAT;
                      fl_default_value := None |} (ex !! "image")
                 ≫= check_feature
                       {| fl_shape := [IMAGE_PIXELS]; fl_dtype := DT_FLOAT;
                          fl_default_value := None |}) records) as [fs Hfs].
  { eapply Forall_impl; [exact Hwf|]. intros ex [[img [Himg Hlen]] _].
    unfold compose. rewrite Himg.
    cbn [feature_or_default mbind option_bind check_feature fl_dtype fl_shape].
    rewrite decide_True; [eauto|]. rewrite Hlen. cbn. lia. }
  rewrite Hfs. cbn [mbind option_bind dense fl_dtype fl_shape].
  eexists. split; [reflexivity|]. rewrite length_fmap.
  apply mapM_Some in Hfs. symmetry. exact (Forall2_length _ _ _ Hfs).
Qed.

Lemma parse_dense_key records :
  Forall well_formed_prediction_record records →
  ∃ ks, parse_dense {| fl_shape := []; fl_dtype := DT_STRING;
                       fl_default_value := None |} "key" records
        = Some (VStr1 ks) ∧
        Forall2 (fun (ex : Example) k => ex !! "key" = Some (BytesList [k]))
                records ks.
Proof.
  intros Hwf. unfold parse_dense.
  induction Hwf as [|ex records [_ [k Hk]] _ (ks & IH & Hks)].
  - exists []. split; [reflexivity|constructor].
  - exists (k :: ks). split; [|constructor; assumption].
    cbn [mapM]. rewrite Hk.
    cbn [feature_or_default mbind option_bind check_feature fl_dtype fl_shape].
    rewrite decide_True by reflexivity. cbn [mbind option_bind].
    destruct (mapM _ records) as [fs|]; [|discriminate].
    cbn [mbind option_bind dense fl_dtype fl_shape] in IH |- *.
    injection IH as <-. reflexivity.
Qed.

Lemma eval_parse_prediction feeds sess examples records key spec :
  eval feeds sess examples = Some (VExamples records) →
  Forall well_formed_prediction_record records →
  prediction_features !! key = Some spec →
  eval feeds sess (ParseExample examples prediction_features key)
  = parse_dense spec key records.
Proof.
  intros Hex Hwf Hkey. cbn [eval]. rewrite Hex.
  rewrite bool_decide_eq_true_2; [rewrite Hkey; reflexivity|].
  intros k s Hk. unfold prediction_features in Hk.
  destruct (decide (k = "image")) as [->|Hne].
  - rewrite lookup_insert_eq in Hk. injection Hk as <-.
    destruct (parse_dense_image records Hwf) as (m & -> & _). eauto.
  - rewrite lookup_insert_ne in Hk by done.
    apply lookup_singleton_Some in Hk as [<- <-].
    destruct (parse_dense_key records Hwf) as (ks & -> & _). eauto.
Qed.

(** X7. On a batch of well-formed prediction records fed to the graph's
    placeholder, the three tensors [build_prediction_graph] registers as
    outputs evaluate as follows: "key" to the records' keys, in order;
    "scores" to one row of 10 positive numbers summing to 1 per record;
    "prediction" to one class index per record, in [0, 10), at which the
    record's row of scores is largest. *)
Theorem prediction_outputs (self : Model) (export_dir : string) (w : World)
    (feeds : Feeds) (sess : Session) (records : list Example) :
  feed_dict feeds (next_placeholder w) = Some (VExamples records) →
  Forall well_formed_prediction_record records →
  ∃ w' outputs key_t prediction_t scores_t keys classes scores,
    build_prediction_graph self export_dir w = Some (tt, w') ∧
    last (get_collection "outputs" w') = Some (JsonObject outputs) ∧
    outputs !! "key" = Some (NameOf key_t) ∧
    outputs !! "prediction" = Some (NameOf prediction_t) ∧
    outputs !! "scores" = Some (NameOf scores_t) ∧
    eval feeds sess key_t = Some (VStr1 keys) ∧
    Forall2 (fun (ex : Example) k => ex !! "key" = Some (BytesList [k]))
            records keys ∧
    eval feeds sess scores_t = Some (VFloat2 scores) ∧
    length scores = length records ∧
    Forall (fun row => length row = 10%nat ∧ is_distribution row) scores ∧
    eval feeds sess prediction_t = Some (VInt1 classes) ∧
    Forall2 is_argmax scores classes.
Proof.
  intros Hfeed Hwf.
  set (examples := Placeholder (next_placeholder w) DT_STRING).
  assert (eval feeds sess examples = Some (VExamples records)) as Hex by exact Hfeed.
  destruct (parse_dense_key records Hwf) as (ks & Hks & Hkeys).
  destruct (parse_dense_image records Hwf) as (m & Hm & Hmlen).
  pose proof (eval_parse_prediction _ _ _ _ "image" _ Hex Hwf eq_refl) as Himage.
  rewrite Hm in Himage.
  destruct (eval_inference feeds sess (next_scope w) _ (hidden1 self) (hidden2 self)
              m Himage) as (logits & Hlogits & Hllen & Hrows).
  set (image := ParseExample examples prediction_features "image") in *.
  set (key := ParseExample examples prediction_features "key").
  set (lg := inference_tensor (next_scope w) image (hidden1 self) (hidden2 self)) in *.
  eexists _, ({[ "key" := NameOf key;
                 "prediction" := NameOf (ArgMax (Softmax lg) 1);
                 "scores" := NameOf (Softmax lg) ]}),
    key, (ArgMax (Softmax lg) 1), (Softmax lg), ks,
    (argmax_row <$> (softmax_row <$> logits)), (softmax_row <$> logits).
  split; [apply build_prediction_graph_run|].
  split.
  { unfold get_collection. cbn [collections set_collections].
    rewrite lookup_insert_eq. cbn [from_option]. unfold Datatypes.id.
    apply last_snoc. }
  split; [apply lookup_insert_eq|].
  split; [rewrite lookup_insert_ne by done; apply lookup_insert_eq|].
  split; [rewrite !lookup_insert_ne by done; apply lookup_singleton_eq|].
  split.
  { unfold key. rewrite (eval_parse_prediction _ _ _ _ "key" _ Hex Hwf eq_refl).
    exact Hks. }
  split; [exact Hkeys|].
  assert (Forall (fun row : list R => row ≠ []) logits) as Hne.
  { eapply Forall_impl; [exact Hrows|]. intros row [Hlen _] ->. discriminate. }
  split; [cbn [eval]; rewrite Hlogits; reflexivity|].
  split; [rewrite length_fmap; lia|].
  split.
  { apply Forall_fmap. eapply Forall_impl; [exact Hrows|]. intros row [Hlen _].
    cbn. split.
    - unfold softmax_row. rewrite length_fmap. exact Hlen.
    - apply softmax_row_distribution. intros ->. discriminate. }
  split; [cbn [eval]; rewrite Hlogits; reflexivity|].
  apply Forall2_fmap_r, Forall_Forall2_diag, Forall_fmap.
  eapply Forall_impl; [exact Hrows|]. intros row [Hlen _]. cbn.
  apply argmax_row_spec. unfold softmax_row. intros Hnil.
  apply fmap_nil_inv in Hnil. subst row. discriminate.
Qed.

(** ** What a tensor reads and what an operation writes *)

Lemma eval_footprint feeds s1 s2 t :
  (∀ scope, scope ∈ layer_scopes t → layer_params s1 scope = layer_params s2 scope) →
  (∀ i, i ∈ variable_refs t → int_variables s1 !! i = int_variables s2 !! i) →
  (∀ s, s ∈ metric_slots t → metric_variables s1 s = metric_variables s2 s) →
  eval feeds s1 t = eval feeds s2 t.
Proof.
  induction t; cbn [layer_scopes variable_refs metric_slots]; intros Hl Hv Hm;
    cbn [eval]; try reflexivity.
  - rewrite IHt by assumption. reflexivity.
  - rewrite IHt, (Hl scope) by (try left; intros; first [apply Hl; right|apply Hv|apply Hm]; assumption).
    reflexivity.
  - rewrite IHt by assumption. reflexivity.
  - rewrite IHt by assumption. reflexivity.
  - rewrite IHt by assumption. reflexivity.
  - rewrite IHt1, IHt2
      by (intros; first [apply Hl|apply Hv|apply Hm]; apply elem_of_app; auto).
    reflexivity.
  - rewrite IHt by assumption. reflexivity.
  - rewrite IHt1, IHt2
      by (intros; first [apply Hl|apply Hv|apply Hm]; apply elem_of_app; auto).
    reflexivity.
  - rewrite IHt by assumption. reflexivity.
  - rewrite (Hv index) by left. reflexivity.
  - rewrite (Hm slot) by left. reflexivity.
Qed.

Lemma run_writes gradients feeds sess sess' op :
  run gradients feeds sess op = Some sess' →
  (∀ scope, scope ∉ written_scopes op →
            layer_params sess' scope = layer_params sess scope) ∧
  (∀ j, j ∉ written_variables op →
        int_variables sess' !! j = int_variables sess !! j) ∧
  length (int_variables sess') = length (int_variables sess) ∧
  (∀ s, s ∉ written_slots op → metric_variables sess' s = metric_variables sess s).
Proof.
  destruct op as [lr loss_op step|slot values]; cbn [run].
  - destruct (eval feeds sess loss_op) as [v|]; [|discriminate].
    destruct (float_value v); [|discriminate].
    assert (∀ scope, scope ∉ trained_scopes loss_op →
              descend lr (trained_scopes loss_op) (gradients feeds sess loss_op)
                (layer_params sess) scope = layer_params sess scope) as Hlayers.
    { intros scope Hs. unfold descend.
      rewrite bool_decide_eq_false_2 by exact Hs. reflexivity. }
    destruct step as [[]|]; try discriminate.
    + destruct (int_variables sess !! index) as [z|]; [|discriminate].
      cbn [mbind option_bind]. intros [= <-].
      cbn [layer_params int_variables metric_variables set_int_variables
           set_layer_params written_scopes written_variables written_slots].
      split; [exact Hlayers|]. split; [|split; [apply length_insert|reflexivity]].
      intros j Hj. apply list_lookup_insert_ne. intros ->. apply Hj. left.
    + intros [= <-].
      cbn [layer_params int_variables metric_variables set_layer_params
           written_scopes written_variables written_slots].
      split; [exact Hlayers|]. repeat split; reflexivity.
  - destruct (eval feeds sess values ≫= sum_and_size) as [[total count]|];
      [|discriminate].
    intros [= <-].
    cbn [layer_params int_variables metric_variables set_metric_variables
         written_scopes written_variables written_slots].
    repeat split; try reflexivity.
    intros s Hs. rewrite decide_False; [reflexivity|].
    intros ->. apply Hs. left.
Qed.

(** ** Streaming means *)

Lemma streaming_mean_of_sum (l : list R) :
  streaming_mean_of (Some (Rsum l), length l) = VFloat0 (mean l).
Proof.
  unfold streaming_mean_of, mean. cbn [fst snd].
  destruct l as [|x l]; [f_equal; cbn; lra|reflexivity].
Qed.

Lemma mean_singleton x : mean [x] = x.
Proof. unfold mean. cbn [Rsum fold_right length INR]. field. Qed.

Lemma nan_plus_0_r a : nan_plus a (Some 0%R) = a.
Proof. destruct a; cbn; [f_equal; lra|reflexivity]. Qed.

Lemma nan_plus_assoc a x y :
  nan_plus (nan_plus a (Some x)) (Some y) = nan_plus a (Some (x + y)%R).
Proof. destruct a; cbn; [f_equal; lra|reflexivity]. Qed.

Section StreamingMeans.

Variable gradients : Feeds -> Session -> tensor -> nat -> LayerParams.

Lemma run_metric_updates (s1 s2 : nat) (t1 t2 : tensor) (base : Session) batches :
  s1 ≠ s2 → metric_slots t1 = [] → metric_slots t2 = [] →
  ∀ (values : list (R * R)) sess,
  layer_params sess = layer_params base →
  int_variables sess = int_variables base →
  Forall2 (fun feeds v => eval feeds base t1 = Some (VFloat0 v.1) ∧
                          eval feeds base t2 = Some (VFloat0 v.2)) batches values →
  ∃ sess',
    run_batches gradients batches sess
      [StreamingMeanUpdate s1 t1; StreamingMeanUpdate s2 t2] = Some sess' ∧
    layer_params sess' = layer_params base ∧
    int_variables sess' = int_variables base ∧
    metric_variables sess' s1
    = (nan_plus (metric_variables sess s1).1 (Some (Rsum (fst <$> values))),
       ((metric_variables sess s1).2 + length values)%nat) ∧
    metric_variables sess' s2
    = (nan_plus (metric_variables sess s2).1 (Some (Rsum (snd <$> values))),
       ((metric_variables sess s2).2 + length values)%nat).
Proof.
  intros Hne Hf1 Hf2 values sess Hp Hv Hall. revert sess Hp Hv.
  assert (∀ feeds sess t, metric_slots t = [] →
            layer_params sess = layer_params base →
            int_variables sess = int_variables base →
            eval feeds sess t = eval feeds base t) as Hsame.
  { intros feeds sess t Hfree Hp Hv. apply eval_footprint.
    - intros scope _. rewrite Hp. reflexivity.
    - intros i _. rewrite Hv. reflexivity.
    - rewrite Hfree. intros s Hs. inversion Hs. }
  induction Hall as [|feeds [v1 v2] batches values [He1 He2] _ IH]; intros sess Hp Hv.
  - exists sess. split; [reflexivity|]. split; [exact Hp|]. split; [exact Hv|].
    cbn [fmap list_fmap Rsum fold_right length]. rewrite !nan_plus_0_r, !Nat.add_0_r.
    destruct (metric_variables sess s1), (metric_variables sess s2). split; reflexivity.
  - cbn [fst snd] in He1, He2.
    set (m1 := metric_variables sess s1). set (m2 := metric_variables sess s2).
    set (sessA := set_metric_variables
                    (fun s => if decide (s = s1)
                              then (nan_plus m1.1 (Some v1), (m1.2 + 1)%nat)
                              else metric_variables sess s) sess).
    set (sessB := set_metric_variables
                    (fun s => if decide (s = s2)
                              then (nan_plus m2.1 (Some v2), (m2.2 + 1)%nat)
                              else metric_variables sessA s) sessA).
    assert (run_each gradients feeds sess
              [StreamingMeanUpdate s1 t1; StreamingMeanUpdate s2 t2] = Some sessB)
      as Hrun.
    { cbn [run_each run].
      rewrite (Hsame feeds sess t1 Hf1 Hp Hv), He1.
      cbn [mbind option_bind sum_and_size]. fold m1. fold sessA.
      rewrite (Hsame feeds sessA t2 Hf2 Hp Hv), He2.
      cbn [mbind option_bind sum_and_size].
      assert (metric_variables sessA s2 = m2) as ->; [|reflexivity].
      unfold sessA. cbn [metric_variables set_metric_variables].
      rewrite decide_False by congruence. reflexivity. }
    destruct (IH sessB Hp Hv) as (sess' & Hrest & Hp' & Hv' & Hm1 & Hm2).
    exists sess'. split; [cbn [run_batches]; rewrite Hrun; exact Hrest|].
    split; [exact Hp'|]. split; [exact Hv'|].
    rewrite Hm1, Hm2. unfold sessB, sessA.
    cbn [metric_variables set_metric_variables fmap list_fmap Rsum fold_right
         length fst snd].
    rewrite !(decide_False (P := s1 = s2)) by exact Hne.
    rewrite !decide_True by reflexivity.
    cbn [fst snd]. fold (Rsum (fst <$> values)). fold (Rsum (snd <$> values)).
    fold m1. fold m2. rewrite !nan_plus_assoc.
    split; f_equal; lia.
Qed.

End StreamingMeans.

(** X8. In either mode, the two metric updates [build_graph] returns fold the
    loss and the accuracy of a batch into two streaming means, and the two
    metric values read them, the loss first, as [format_metric_values] labels
    them.  Run on a series of batches from a fresh session, the updates
    succeed whenever loss and accuracy can be evaluated; afterwards the
    metric values are the averages of the per-batch losses and accuracies,
    and neither the layer variables nor the step counter have changed. *)
Theorem build_graph_streaming_means
    (gradients : Feeds -> Session -> tensor -> nat -> LayerParams)
    (self : Model) (data_paths : list string) (batch_size : Z)
    (is_training : bool) (w : World) :
  ∃ refs w' s1 s2 logits labels,
    build_graph self data_paths batch_size is_training w = Some (refs, w') ∧
    metric_updates refs
    = [StreamingMeanUpdate s1 (loss logits labels);
       StreamingMeanUpdate s2 (evaluation logits labels)] ∧
    metric_values refs = [StreamingMeanValue s1; StreamingMeanValue s2] ∧
    ∀ drawn batches (values : list (R * R)),
      Forall2 (fun feeds v =>
                 eval feeds (initial_session w' drawn) (loss logits labels)
                   = Some (VFloat0 v.1) ∧
                 eval feeds (initial_session w' drawn) (evaluation logits labels)
                   = Some (VFloat0 v.2)) batches values →
      ∃ sess',
        run_batches gradients batches (initial_session w' drawn)
          (metric_updates refs) = Some sess' ∧
        (∀ feeds, eval feeds sess' <$> metric_values refs
                  = [Some (VFloat0 (mean (fst <$> values)));
                     Some (VFloat0 (mean (snd <$> values)))]) ∧
        layer_params sess' = drawn ∧
        (∀ feeds, (eval feeds sess' <$> global_step refs)
                  = Some (Some (VInt0 0))).
Proof.
  set (ex := ReaderExamples (reader_call data_paths batch_size is_training)).
  set (lg := inference_tensor (next_scope w)
               (ParseExample ex training_features "images")
               (hidden1 self) (hidden2 self)).
  set (lb := ParseExample ex training_features "labels").
  eexists _, _, (next_metric w), (S (next_metric w)), lg, lb.
  split; [apply build_graph_run|].
  split; [reflexivity|]. split; [reflexivity|].
  intros drawn batches values Hall.
  set (w' := set_summaries _ _) in *.
  destruct (run_metric_updates gradients (next_metric w) (S (next_metric w))
              (loss lg lb) (evaluation lg lb) (initial_session w' drawn) batches
              (n_Sn _) eq_refl eq_refl values (initial_session w' drawn)
              eq_refl eq_refl Hall) as (sess' & Hrun & Hp & Hv & Hm1 & Hm2).
  exists sess'. split; [exact Hrun|]. split; [|split].
  - intros feeds. cbn [graph_references_of metric_values fmap list_fmap eval].
    rewrite Hm1, Hm2. cbn [initial_session metric_variables fst snd nan_plus].
    rewrite !Rplus_0_l, !Nat.add_0_l.
    rewrite <- (length_fmap fst values) at 1. rewrite <- (length_fmap snd values).
    rewrite !streaming_mean_of_sum. reflexivity.
  - exact Hp.
  - intros feeds. cbn [graph_references_of global_step fmap option_fmap option_map].
    rewrite eval_variable, Hv. unfold w'.
    cbn [initial_session int_variables variables set_summaries set_next_metric
         set_variables set_next_scope].
    rewrite fmap_app, lookup_app_r by (rewrite length_fmap; lia).
    rewrite length_fmap, Nat.sub_diag. reflexivity.
Qed.

(** ** Training on bad batches, and what a training step leaves alone *)


(** X10. [training] raises when the loss depends on no trainable layer.
    Otherwise a run of the train op it returns fails when the loss cannot be
    evaluated and completes when the loss evaluates, to a scalar or not, and
    the session holds the step counter.  A run that completes leaves every
    streaming mean, every integer variable other than its own step counter,
    and every layer the loss does not depend on as they were. *)
Theorem train_op_frame
    (gradients : Feeds -> Session -> tensor -> nat -> LayerParams)
    (loss_op : tensor) (lr : R) (w : World) :
  (trained_scopes loss_op = [] → training loss_op lr w = None) ∧
  (trained_scopes loss_op ≠ [] →
   ∃ train_op w' i,
     training loss_op lr w = Some ((train_op, VariableRef i), w') ∧
     (∀ feeds sess,
        eval feeds sess loss_op = None →
        run gradients feeds sess train_op = None) ∧
     (∀ feeds sess,
        is_Some (eval feeds sess loss_op) →
        is_Some (int_variables sess !! i) →
        is_Some (run gradients feeds sess train_op)) ∧
     (∀ feeds sess sess',
        run gradients feeds sess train_op = Some sess' →
        metric_variables sess' = metric_variables sess ∧
        length (int_variables sess') = length (int_variables sess) ∧
        (∀ j, j ≠ i → int_variables sess' !! j = int_variables sess !! j) ∧
        (∀ scope, scope ∉ trained_scopes loss_op →
                  layer_params sess' scope = layer_params sess scope))).
Proof.
  split; [apply training_raises|]. intros Htrained.
  eexists _, _, _. split; [apply training_run, Htrained|]. split; [|split].
  - intros feeds sess Hno. cbn [run]. rewrite Hno. reflexivity.
  - intros feeds sess [v Hv] [z Hz].
    pose proof (trained_scopes_float _ _ _ _ Htrained Hv) as Hfloat.
    destruct (run_minimize_completes gradients feeds sess lr loss_op _ v z
                Hv Hfloat Hz) as [sess' Hrun].
    exists sess'. exact Hrun.
  - intros feeds sess sess' Hrun.
    destruct (run_writes _ _ _ _ _ Hrun) as (Hlayers & Hints & Hlen & Hmetrics).
    cbn [written_scopes written_variables written_slots] in *.
    split; [|split; [exact Hlen|split; [|exact Hlayers]]].
    + cbn [run] in Hrun.
      destruct (eval feeds sess loss_op) as [v|]; [|discriminate].
      destruct (float_value v); [|discriminate].
      destruct (int_variables sess !! length (variables w)); [|discriminate].
      injection Hrun as <-. reflexivity.
    + intros j Hj. apply Hints. intros Hin. apply Hj.
      apply list_elem_of_singleton in Hin. exact Hin.
Qed.

(** ** The arguments the factory returns *)

Lemma create_model_eq
    (parse_known_args :
       list argparse.Argument -> list string -> option (gmap string R * list string))
    sys_argv args task_args lr :
  parse_known_args create_model_parser (tail sys_argv) = Some (args, task_args) →
  args !! "learning_rate" = Some lr →
  create_model parse_known_args sys_argv
  = Some ({| learning_rate := lr; hidden1 := HIDDEN1; hidden2 := HIDDEN2 |},
          task_args ++ missing_defaults task_defaults task_args).
Proof.
  intros Hparse Hlr. unfold create_model. rewrite Hparse. cbn [mbind option_bind].
  change (util.override_if_not_in_args "--min_train_eval_rate" "1" _)
    with (inject_defaults task_defaults task_args).
  rewrite Hlr. cbn [mbind option_bind]. do 2 f_equal.
  rewrite <- (app_nil_r task_args) at 1.
  rewrite inject_defaults_spec by reflexivity. reflexivity.
Qed.

Lemma key_present_own flag argument :
  util.key_present flag [flag; argument] = true.
Proof.
  unfold util.key_present. cbn [existsb].
  rewrite bool_decide_eq_true_2 by reflexivity. reflexivity.
Qed.

Lemma inject_defaults_present defaults : ∀ args,
  (∀ d, d ∈ defaults → util.key_present d.1 args = true) →
  inject_defaults defaults args = args.
Proof.
  induction defaults as [|d defaults IH]; intros args Hall; [reflexivity|].
  cbn [inject_defaults fold_left]. fold (inject_defaults defaults).
  unfold util.override_if_not_in_args. rewrite (Hall d) by left.
  apply IH. intros d' Hd'. apply Hall. right. exact Hd'.
Qed.

Lemma missing_defaults_nil defaults args :
  missing_defaults defaults args = [] ↔
  ∀ d, d ∈ defaults → util.key_present d.1 args = true.
Proof.
  unfold missing_defaults. induction defaults as [|d defaults IH].
  - split; [intros _ d Hd; inversion Hd|reflexivity].
  - cbn [flat_map]. split.
    + intros Hnil. apply app_eq_nil in Hnil as [Hd Hrest].
      intros d' Hd'. apply elem_of_cons in Hd' as [->|Hd'].
      * destruct (util.key_present d.1 args); [reflexivity|discriminate].
      * apply IH; assumption.
    + intros Hall. rewrite (Hall d) by left. cbn [app].
      apply IH. intros d' Hd'. apply Hall. right. exact Hd'.
Qed.

(** X11. Whenever argparse returns, the argument list [create_model] returns
    gives every one of the six hyperparameters, so that injecting the
    defaults once more would add nothing; and it is the caller's own list,
    with nothing appended, exactly when the caller gave all six. *)
Theorem create_model_arguments_complete
    (parse_known_args :
       list argparse.Argument -> list string -> option (gmap string R * list string))
    (sys_argv : list string) (args : gmap string R) (task_args : list string)
    (lr : R) :
  parse_known_args create_model_parser (tail sys_argv) = Some (args, task_args) →
  args !! "learning_rate" = Some lr →
  ∃ model result,
    create_model parse_known_args sys_argv = Some (model, result) ∧
    (∀ flag argument, (flag, argument) ∈ task_defaults →
       util.key_present flag result = true) ∧
    inject_defaults task_defaults result = result ∧
    (result = task_args ↔
     ∀ flag argument, (flag, argument) ∈ task_defaults →
       util.key_present flag task_args = true).
Proof.
  intros Hparse Hlr. eexists _, _.
  split; [apply (create_model_eq _ _ _ _ _ Hparse Hlr)|].
  assert (∀ flag argument, (flag, argument) ∈ task_defaults →
            util.key_present flag
              (task_args ++ missing_defaults task_defaults task_args) = true)
    as Hall.
  { intros flag argument Hin. rewrite key_present_app.
    destruct (util.key_present flag task_args) eqn:Hp; [reflexivity|].
    destruct (missing_defaults_absent _ _ (flag, argument) Hin Hp)
      as (before & after & ->).
    cbn [fst snd orb]. rewrite !key_present_app, key_present_own.
    apply orb_true_iff. right. reflexivity. }
  split; [exact Hall|]. split.
  - apply inject_defaults_present. intros [flag argument] Hd. exact (Hall _ _ Hd).
  - split.
    + intros Heq flag argument Hin.
      assert (missing_defaults task_defaults task_args = []) as Hnil.
      { apply nil_length_inv. apply (f_equal length) in Heq.
        rewrite length_app in Heq. lia. }
      exact (proj1 (missing_defaults_nil _ _) Hnil (flag, argument) Hin).
    + intros Hgiven.
      rewrite (proj2 (missing_defaults_nil task_defaults task_args)).
      * apply app_nil_r.
      * intros [flag argument] Hin. exact (Hgiven _ _ Hin).
Qed.

(** ** Formatting too few values *)

(** X12. [format_metric_values] fails (IndexError) exactly on sequences of
    fewer than two values, and [format_prediction_values] exactly on the
    empty sequence; values beyond the second, respectively the first, never
    matter. *)
Theorem format_index_errors :
  (∀ metric_values, format_metric_values metric_values = None ↔
                    (length metric_values < 2)%nat) ∧
  (∀ prediction, format_prediction_values prediction = None ↔ prediction = []) ∧
  (∀ metric_values, format_metric_values metric_values
                    = format_metric_values (take 2 metric_values)) ∧
  (∀ prediction, format_prediction_values prediction
                 = format_prediction_values (take 1 prediction)).
Proof.
  split; [|split; [|split]].
  - intros [|a [|b rest]]; cbn; split; intros H; try reflexivity; try lia;
      discriminate.
  - intros [|a rest]; cbn; split; intros H; try reflexivity; discriminate.
  - intros [|a [|b rest]]; reflexivity.
  - intros [|a rest]; reflexivity.
Qed.

(** ** Two graphs in one default graph *)

Lemma graph_layer_scopes self paths size mode w op scope :
  op ∈ ops_of (graph_references_of self paths size mode w) →
  scope ∈ layer_scopes (op_tensor op) →
  (next_scope w <= scope < next_scope w + 3)%nat.
Proof.
  intros Hop Hs.
  assert (scope ∈ [S (S (next_scope w)); S (next_scope w); next_scope w]) as Hin.
  { unfold ops_of in Hop.
    destruct mode; cbn [graph_references_of train metric_updates option_list app]
      in Hop;
      repeat (apply elem_of_cons in Hop as [->|Hop]);
      try (apply elem_of_nil in Hop; contradiction);
      cbn in Hs; rewrite ?app_nil_r in Hs; exact Hs. }
  repeat (apply elem_of_cons in Hin as [->|Hin]);
    try (apply elem_of_nil in Hin; contradiction); lia.
Qed.

Lemma graph_op_reads self paths size mode w op :
  op ∈ ops_of (graph_references_of self paths size mode w) →
  variable_refs (op_tensor op) = [] ∧ metric_slots (op_tensor op) = [].
Proof.
  intros Hop. unfold ops_of in Hop.
  destruct mode; cbn [graph_references_of train metric_updates option_list app]
    in Hop;
    repeat (apply elem_of_cons in Hop as [->|Hop]);
    try (apply elem_of_nil in Hop; contradiction);
    split; reflexivity.
Qed.

(** What the operations of a graph write lies within what the graph has
    declared. *)
Lemma graph_writes self paths size mode w op :
  op ∈ ops_of (graph_references_of self paths size mode w) →
  (∀ scope, scope ∈ written_scopes op →
            (next_scope w <= scope < next_scope w + 3)%nat) ∧
  (∀ j, j ∈ written_variables op → j = length (variables w)) ∧
  (∀ s, s ∈ written_slots op → (next_metric w <= s < next_metric w + 2)%nat).
Proof.
  intros Hop. unfold ops_of in Hop.
  destruct mode; cbn [graph_references_of train metric_updates option_list app]
    in Hop;
    repeat (apply elem_of_cons in Hop as [->|Hop]);
    try (apply elem_of_nil in Hop; contradiction);
    cbn [written_scopes written_variables written_slots loss tf.to_int64
         tf.reduce_mean tf.nn.sparse_softmax_cross_entropy_with_logits
         inference_tensor trained_scopes];
    (split; [|split]); intros x Hx;
    repeat (apply elem_of_cons in Hx as [->|Hx]);
    try (apply elem_of_nil in Hx; contradiction); first [reflexivity|lia].
Qed.

(** What a graph can observe of a session lies within what the graph has
    declared. *)
Lemma graph_reads self paths size mode w s1 s2 :
  (∀ scope, (next_scope w <= scope < next_scope w + 3)%nat →
            layer_params s1 scope = layer_params s2 scope) →
  int_variables s1 !! length (variables w) = int_variables s2 !! length (variables w) →
  (∀ s, (next_metric w <= s < next_metric w + 2)%nat →
        metric_variables s1 s = metric_variables s2 s) →
  graph_state_unchanged (graph_references_of self paths size mode w) s2 s1.
Proof.
  intros Hlayers Hstep Hmetrics feeds. split; [|split].
  - cbn [graph_references_of metric_values]. intros t Ht.
    repeat (apply elem_of_cons in Ht as [->|Ht]);
      try (apply elem_of_nil in Ht; contradiction);
      cbn [eval]; rewrite Hmetrics by lia; reflexivity.
  - cbn [graph_references_of global_step]. intros t [= <-].
    rewrite !eval_variable, Hstep. reflexivity.
  - intros op Hop. destruct (graph_op_reads _ _ _ _ _ _ Hop) as [Hv Hm].
    apply eval_footprint.
    + intros scope Hs. apply Hlayers. exact (graph_layer_scopes _ _ _ _ _ _ _ Hop Hs).
    + rewrite Hv. intros i Hi. inversion Hi.
    + rewrite Hm. intros s Hs. inversion Hs.
Qed.

(** X13. Two calls of [build_graph] on the same default graph, in whatever
    modes, give graphs that share nothing that holds state: their step
    counters are different variables and their streaming means different
    slots, and a completed run of any operation of the one graph (its train
    op, a metric update) is invisible to the other: the other graph's metric
    values, its step counter, and its loss and its accuracy on every batch
    are what they were before the run, so that the second graph does not see
    what the first one learns. *)
Theorem graphs_share_no_state
    (gradients : Feeds -> Session -> tensor -> nat -> LayerParams)
    (self : Model)
    (paths1 paths2 : list string) (size1 size2 : Z) (mode1 mode2 : bool)
    (w : World) :
  ∃ refs1 w1 refs2 w2,
    build_graph self paths1 size1 mode1 w = Some (refs1, w1) ∧
    build_graph self paths2 size2 mode2 w1 = Some (refs2, w2) ∧
    global_step refs1 ≠ global_step refs2 ∧
    (∀ t, t ∈ metric_values refs1 → t ∉ metric_values refs2) ∧
    (∀ feeds sess sess' op,
       op ∈ ops_of refs1 → run gradients feeds sess op = Some sess' →
       graph_state_unchanged refs2 sess sess') ∧
    (∀ feeds sess sess' op,
       op ∈ ops_of refs2 → run gradients feeds sess op = Some sess' →
       graph_state_unchanged refs1 sess sess').
Proof.
  eexists _, _, _, _.
  split; [apply build_graph_run|]. split; [apply build_graph_run|].
  split; [|split; [|split]].
  - cbn [graph_references_of global_step variables set_summaries set_next_metric
         set_variables set_next_scope].
    rewrite length_app. cbn [length]. intros [=]. lia.
  - cbn [graph_references_of metric_values next_metric set_summaries
         set_next_metric set_variables set_next_scope].
    intros t Ht Ht'.
    repeat (apply elem_of_cons in Ht as [->|Ht]);
      try (apply elem_of_nil in Ht; contradiction);
      repeat (apply elem_of_cons in Ht' as [Ht'|Ht']);
      try (apply elem_of_nil in Ht'; contradiction);
      injection Ht'; lia.
  - intros feeds sess sess' op Hop Hrun.
    destruct (graph_writes _ _ _ _ _ _ Hop) as (Ws & Wv & Wm).
    destruct (run_writes _ _ _ _ _ Hrun) as (Hlayers & Hints & _ & Hmetrics).
    apply graph_reads;
      cbn [next_scope next_metric variables set_summaries set_next_metric
           set_variables set_next_scope].
    + intros scope Hs. apply Hlayers. intros Hin. specialize (Ws _ Hin). lia.
    + apply Hints. intros Hin. specialize (Wv _ Hin).
      rewrite length_app in Wv. cbn [length] in Wv. lia.
    + intros s Hs. apply Hmetrics. intros Hin. specialize (Wm _ Hin). lia.
  - intros feeds sess sess' op Hop Hrun.
    destruct (graph_writes _ _ _ _ _ _ Hop) as (Ws & Wv & Wm).
    cbn [next_scope next_metric variables set_summaries set_next_metric
         set_variables set_next_scope] in Ws, Wv, Wm.
    destruct (run_writes _ _ _ _ _ Hrun) as (Hlayers & Hints & _ & Hmetrics).
    apply graph_reads.
    + intros scope Hs. apply Hlayers. intros Hin. specialize (Ws _ Hin). lia.
    + apply Hints. intros Hin. specialize (Wv _ Hin).
      rewrite length_app in Wv. cbn [length] in Wv. lia.
    + intros s Hs. apply Hmetrics. intros Hin. specialize (Wm _ Hin). lia.
Qed.

(** ** What building a graph registers *)

(** X14. In either mode [build_graph] adds exactly two summaries, tagged
    "accuracy" and "loss", and they are bound to the streaming means it
    returns as metric values, the loss being the first metric value, not to
    the loss and the accuracy of a single batch.  In a fresh session both
    read 0; after the two metric updates have run on one batch on which the
    loss is L and the accuracy is A, the summary tagged "loss" reads L and
    the summary tagged "accuracy" reads A. *)
Theorem build_graph_registers_summaries
    (gradients : Feeds -> Session -> tensor -> nat -> LayerParams)
    (self : Model) (data_paths : list string) (batch_size : Z)
    (is_training : bool) (w : World) :
  ∃ refs w' loss_mean accuracy_mean s1 s2 logits labels,
    build_graph self data_paths batch_size is_training w = Some (refs, w') ∧
    metric_values refs = [loss_mean; accuracy_mean] ∧
    metric_updates refs
    = [StreamingMeanUpdate s1 (loss logits labels);
       StreamingMeanUpdate s2 (evaluation logits labels)] ∧
    summaries w'
    = summaries w ++ [("accuracy", accuracy_mean); ("loss", loss_mean)] ∧
    (∀ drawn feeds,
       eval feeds (initial_session w' drawn) loss_mean = Some (VFloat0 0) ∧
       eval feeds (initial_session w' drawn) accuracy_mean = Some (VFloat0 0)) ∧
    (∀ drawn feeds L A,
       eval feeds (initial_session w' drawn) (loss logits labels)
         = Some (VFloat0 L) →
       eval feeds (initial_session w' drawn) (evaluation logits labels)
         = Some (VFloat0 A) →
       ∃ sess',
         run_each gradients feeds (initial_session w' drawn) (metric_updates refs)
           = Some sess' ∧
         ∀ feeds', eval feeds' sess' loss_mean = Some (VFloat0 L) ∧
                   eval feeds' sess' accuracy_mean = Some (VFloat0 A)).
Proof.
  set (ex := ReaderExamples (reader_call data_paths batch_size is_training)).
  set (lg := inference_tensor (next_scope w)
               (ParseExample ex training_features "images")
               (hidden1 self) (hidden2 self)).
  set (lb := ParseExample ex training_features "labels").
  eexists _, _, (StreamingMeanValue (next_metric w)),
    (StreamingMeanValue (S (next_metric w))), (next_metric w), (S (next_metric w)),
    lg, lb.
  split; [apply build_graph_run|]. split; [reflexivity|]. split; [reflexivity|].
  split; [cbn [summaries set_summaries]; rewrite <- app_assoc; reflexivity|].
  split; [intros drawn feeds; split; reflexivity|].
  intros drawn feeds L A HL HA.
  set (w' := set_summaries _ _) in *.
  destruct (run_metric_updates gradients (next_metric w) (S (next_metric w))
              (loss lg lb) (evaluation lg lb) (initial_session w' drawn) [feeds]
              (n_Sn _) eq_refl eq_refl [(L, A)] (initial_session w' drawn)
              eq_refl eq_refl) as (sess' & Hrun & _ & _ & Hm1 & Hm2).
  { constructor; [split; [exact HL|exact HA]|constructor]. }
  cbn [run_batches] in Hrun.
  destruct (run_each gradients feeds (initial_session w' drawn) _) as [sess1|] eqn:Heach;
    [|discriminate].
  cbn in Hrun. injection Hrun as ->.
  exists sess'. split; [reflexivity|].
  intros feeds'. cbn [eval]. rewrite Hm1, Hm2.
  cbn [initial_session metric_variables fst snd nan_plus fmap list_fmap Rsum
       fold_right length Nat.add].
  unfold streaming_mean_of. cbn [fst snd INR].
  split; do 2 f_equal; field.
Qed.

(** ** A training step on a labelled batch *)

(** X15. On a batch of well-formed records whose labels all lie in [0, 9],
    one step of the training graph goes through from a fresh session: the
    records parse, the loss evaluates, the run of the train op completes and
    leaves the step counter at 1, and the two metric updates then complete
    as well. *)
Theorem training_step_on_labelled_batch
    (gradients : Feeds -> Session -> tensor -> nat -> LayerParams)
    (self : Model) (data_paths : list string) (batch_size : Z) (w : World)
    (drawn : nat -> LayerParams) (feeds : Feeds) (ks : list string)
    (records : list Example) :
  reader_batch feeds = Some (ks, records) →
  Forall well_formed_record records →
  Forall (fun ex => ∃ l, label_of ex = Some l ∧ 0 <= l <= 9) records →
  ∃ refs w' train_op sess' sess'',
    build_train_graph self data_paths batch_size w = Some (refs, w') ∧
    train refs = Some train_op ∧
    run gradients feeds (initial_session w' drawn) train_op = Some sess' ∧
    (eval feeds sess' <$> global_step refs) = Some (Some (VInt0 1)) ∧
    run_each gradients feeds sess' (metric_updates refs) = Some sess''.
Proof.
  intros Hbatch Hwf Hlabelled. unfold build_train_graph.
  set (args := reader_call data_paths batch_size true).
  set (refs := graph_references_of self data_paths batch_size true w).
  pose proof (fun sess => labelled_batch_evaluates feeds sess args (next_scope w)
                (hidden1 self) (hidden2 self) ks records Hbatch Hwf Hlabelled)
    as Hevals. cbv zeta in Hevals.
  set (w' := set_summaries
               ((summaries w ++ [("accuracy", StreamingMeanValue (S (next_metric w)))])
                ++ [("loss", StreamingMeanValue (next_metric w))])
               (set_next_metric (S (S (next_metric w)))
                  (set_variables (variables w ++ [step_counter])
                     (set_next_scope (S (S (S (next_scope w)))) w)))).
  assert (int_variables (initial_session w' drawn) !! length (variables w) = Some 0)
    as Hinit.
  { unfold w'.
    cbn [initial_session int_variables variables set_summaries set_next_metric
         set_variables].
    rewrite fmap_app, lookup_app_r by (rewrite length_fmap; lia).
    rewrite length_fmap, Nat.sub_diag. reflexivity. }
  destruct (Hevals (initial_session w' drawn)) as (cs & bs & HL & _).
  destruct (run_minimize_completes gradients feeds _ (learning_rate self) _ _
              (mean_value cs) 0 HL (float_value_mean_value cs) Hinit)
    as [sess' Hrun].
  pose proof (run_minimize_step gradients _ _ _ _ _ _ _ Hrun Hinit) as Hstep.
  destruct (Hevals sess') as (cs' & _ & HL' & _).
  destruct (sum_and_size_mean_value cs') as [tl Htl].
  set (sessA := set_metric_variables
                  (fun s => if decide (s = next_metric w)
                            then (nan_plus (metric_variables sess' (next_metric w)).1 tl,
                                  ((metric_variables sess' (next_metric w)).2 + 1)%nat)
                            else metric_variables sess' s) sess').
  destruct (Hevals sessA) as (_ & bs' & _ & HA' & _).
  destruct (sum_and_size_mean_value bs') as [ta Hta].
  eexists refs, w', _, sess', _.
  split; [apply build_graph_run|]. split; [reflexivity|].
  split; [exact Hrun|]. split.
  - cbn [refs graph_references_of global_step fmap option_fmap option_map].
    rewrite eval_variable, Hstep. reflexivity.
  - cbn [refs graph_references_of metric_updates run_each run].
    fold args. rewrite HL'. cbn [mbind option_bind]. rewrite Htl.
    cbv beta iota zeta. fold sessA. cbn [mbind option_bind].
    rewrite HA'. cbn [mbind option_bind]. rewrite Hta. reflexivity.
Qed.

(** ** Prediction records that cannot be served *)

(** X16. One bad record spoils a prediction batch as well: if some record
    has no "key" feature holding exactly one string (the key has no default)
    or no "image" feature of exactly 784 floats, none of the registered
    output tensors, key, prediction or scores, can be evaluated. *)
Theorem prediction_rejects_batch (self : Model) (export_dir : string)
    (w : World) (feeds : Feeds) (sess : Session) (records : list Example)
    (i : nat) (ex : Example) :
  feed_dict feeds (next_placeholder w) = Some (VExamples records) →
  records !! i = Some ex →
  (∀ k, ex !! "key" ≠ Some (BytesList [k])) ∨
  (∀ img, ex !! "image" = Some (FloatList img) → length img ≠ 784%nat) →
  ∃ w' outputs,
    build_prediction_graph self export_dir w = Some (tt, w') ∧
    last (get_collection "outputs" w') = Some (JsonObject outputs) ∧
    dom outputs = {[ "key"; "prediction"; "scores" ]} ∧
    ∀ name t, outputs !! name = Some (NameOf t) → eval feeds sess t = None.
Proof.
  intros Hfeed Hi Hbad.
  set (examples := Placeholder (next_placeholder w) DT_STRING).
  assert (eval feeds sess examples = Some (VExamples records)) as Hex by exact Hfeed.
  assert (∀ key, eval feeds sess (ParseExample examples prediction_features key)
                 = None) as Hparse.
  { intros key. destruct Hbad as [Hkey|Himg].
    - eapply (eval_parse_example_None _ _ _ _ records "key");
        [exact Hex|reflexivity|].
      eapply parse_dense_None; [exact Hi|].
      destruct (ex !! "key") as [[[|k [|k' ks]]| |]|] eqn:Hlook; try reflexivity.
      exfalso. exact (Hkey k eq_refl).
    - eapply (eval_parse_example_None _ _ _ _ records "image");
        [exact Hex|reflexivity|].
      eapply parse_dense_None; [exact Hi|].
      destruct (ex !! "image") as [[| img |]|] eqn:Hlook; try reflexivity.
      cbn [feature_or_default mbind option_bind check_feature fl_dtype fl_shape].
      rewrite decide_False; [reflexivity|].
      intros Hlen. apply (Himg img eq_refl). rewrite Hlen. reflexivity. }
  set (image := ParseExample examples prediction_features "image").
  set (key := ParseExample examples prediction_features "key").
  set (lg := inference_tensor (next_scope w) image (hidden1 self) (hidden2 self)).
  assert (eval feeds sess lg = None) as Hlg.
  { unfold lg, inference_tensor. cbn [eval]. unfold image. rewrite Hparse.
    reflexivity. }
  eexists _, ({[ "key" := NameOf key;
                 "prediction" := NameOf (ArgMax (Softmax lg) 1);
                 "scores" := NameOf (Softmax lg) ]}).
  split; [apply build_prediction_graph_run|].
  split.
  { unfold get_collection. cbn [collections set_collections].
    rewrite lookup_insert_eq. cbn [from_option]. unfold Datatypes.id.
    apply last_snoc. }
  split; [rewrite !dom_insert_L, dom_singleton_L; set_solver|].
  intros name t Ht.
  apply lookup_insert_Some in Ht as [[_ [= <-]]|[_ Ht]]; [apply Hparse|].
  apply lookup_insert_Some in Ht as [[_ [= <-]]|[_ Ht]];
    [cbn [eval]; rewrite Hlg; reflexivity|].
  apply lookup_singleton_Some in Ht as [_ [= <-]].
  cbn [eval]. rewrite Hlg. reflexivity.
Qed.

(** ** The further statements at sample inputs *)


(** One example with ten equal logits and label 0: the tie counts as
    correct and the accuracy is 1. *)
Lemma evaluation_counts_ties_witness :
  let feeds := feed_logits_labels [flat_logits] [0] in
  let sess := initial_session empty_world small_params in
  let logits := Placeholder 0 DT_FLOAT in
  let labels := Placeholder 1 DT_INT64 in
  eval feeds sess logits = Some (VFloat2 [flat_logits]) ∧
  eval feeds sess labels = Some (VInt1 [0]) ∧
  [flat_logits] ≠ [] ∧
  length [flat_logits] = length [0] ∧
  Forall (fun row => length row = NUM_CLASSES) [flat_logits] ∧
  Forall (fun l => 0 <= l <= 9) [0] ∧
  true_label_is_max flat_logits 0 ∧
  eval feeds sess (evaluation logits labels) = Some (VFloat0 1%R).
Proof.
  intros feeds sess logits labels.
  assert (Forall (fun row => length row = NUM_CLASSES) [flat_logits]) as Hrows
    by (repeat constructor).
  assert (Forall (fun l => 0 <= l <= 9) [0]) as Hls by (repeat constructor; lia).
  assert ([flat_logits] ≠ []) as Hne by discriminate.
  assert (true_label_is_max flat_logits 0) as Hmax.
  { exists 0%R. split; [reflexivity|]. intros y Hy.
    rewrite (elem_of_repeat _ _ _ Hy). lra. }
  do 7 (split; [first [reflexivity | assumption]|]).
  destruct (evaluation_counts_ties feeds sess logits labels [flat_logits] [0]
              eq_refl eq_refl Hne eq_refl Hrows Hls)
    as (correct & Hcorrect & Heval).
  rewrite Heval. do 2 f_equal.
  destruct correct as [|b [|b' correct]];
    [apply Forall2_length in Hcorrect; discriminate Hcorrect
    | |apply Forall2_length in Hcorrect; discriminate Hcorrect].
  apply Forall2_cons_1 in Hcorrect as [Hb _]. cbn [fst snd] in Hb.
  rewrite (proj2 Hb Hmax). unfold count_true.
  rewrite filter_cons_True by reflexivity. rewrite filter_nil.
  cbn [length INR]. field.
Defined.

(** One example with ten equal logits and label 0. *)
Lemma uniform_logits_loss_and_accuracy_witness :
  let feeds := feed_logits_labels [flat_logits] [0] in
  let sess := initial_session empty_world small_params in
  let logits := Placeholder 0 DT_FLOAT in
  let labels := Placeholder 1 DT_INT64 in
  eval feeds sess logits = Some (VFloat2 [flat_logits]) ∧
  eval feeds sess labels = Some (VInt1 [0]) ∧
  [flat_logits] ≠ [] ∧
  length [flat_logits] = length [0] ∧
  Forall (fun row => ∃ c, row = repeat c NUM_CLASSES) [flat_logits] ∧
  Forall (fun l => 0 <= l <= 9) [0] ∧
  eval feeds sess (loss logits labels) = Some (VFloat0 (ln 10)) ∧
  eval feeds sess (evaluation logits labels) = Some (VFloat0 1%R).
Proof.
  intros feeds sess logits labels.
  assert (Forall (fun row => ∃ c, row = repeat c NUM_CLASSES) [flat_logits])
    as Hrows by (constructor; [exists 0%R; reflexivity|constructor]).
  assert (Forall (fun l => 0 <= l <= 9) [0]) as Hls by (repeat constructor; lia).
  assert ([flat_logits] ≠ []) as Hne by discriminate.
  do 6 (split; [first [reflexivity | assumption]|]).
  exact (uniform_logits_loss_and_accuracy feeds sess logits labels [flat_logits]
           [0] eq_refl eq_refl Hne eq_refl Hrows Hls).
Defined.

(** The logits of [peak_at_3] and the same logits raised by 5. *)
Lemma loss_and_accuracy_shift_invariant_witness :
  let feeds := feed_two_logits [peak_at_3] [3] (zip_with shift_row [5%R] [peak_at_3]) in
  let sess := initial_session empty_world small_params in
  let logits := Placeholder 0 DT_FLOAT in
  let labels := Placeholder 1 DT_INT64 in
  let shifted := Placeholder 2 DT_FLOAT in
  eval feeds sess logits = Some (VFloat2 [peak_at_3]) ∧
  eval feeds sess shifted
    = Some (VFloat2 (zip_with shift_row [5%R] [peak_at_3])) ∧
  length [5%R] = length [peak_at_3] ∧
  eval feeds sess labels = Some (VInt1 [3]) ∧
  eval feeds sess (loss shifted labels) = eval feeds sess (loss logits labels) ∧
  eval feeds sess (evaluation shifted labels)
  = eval feeds sess (evaluation logits labels).
Proof.
  intros feeds sess logits labels shifted.
  do 4 (split; [reflexivity|]).
  exact (loss_and_accuracy_shift_invariant feeds sess logits shifted labels
           [peak_at_3] [5%R] [3] eq_refl eq_refl eq_refl eq_refl).
Defined.

(** A batch whose only record has no feature at all. *)
Lemma parse_examples_rejects_batch_witness :
  let feeds := feed_reader [∅] in
  let sess := initial_session empty_world small_params in
  let examples := ReaderExamples (reader_call [] 1 false) in
  eval feeds sess examples = Some (VExamples [∅]) ∧
  ([∅] : list Example) !! 0%nat = Some ∅ ∧
  ∀ key t, parse_examples examples !! key = Some t → eval feeds sess t = None.
Proof.
  intros feeds sess examples.
  split; [reflexivity|]. split; [reflexivity|].
  apply (parse_examples_rejects_batch feeds sess examples [∅] 0 ∅ eq_refl eq_refl).
  left. intros img Himg. rewrite lookup_empty in Himg. discriminate Himg.
Defined.

(** A batch of one prediction record fed to the placeholder of a graph built
    from nothing. *)
Lemma prediction_outputs_witness :
  let feeds := feed_placeholder_0 (VExamples [prediction_record]) in
  let sess := initial_session empty_world small_params in
  feed_dict feeds (next_placeholder empty_world)
    = Some (VExamples [prediction_record]) ∧
  Forall well_formed_prediction_record [prediction_record] ∧
  ∃ w' scores_t scores,
    build_prediction_graph default_model "export" empty_world = Some (tt, w') ∧
    eval feeds sess scores_t = Some (VFloat2 scores) ∧
    length scores = 1%nat ∧
    Forall (fun row => length row = 10%nat ∧ is_distribution row) scores.
Proof.
  intros feeds sess.
  assert (Forall well_formed_prediction_record [prediction_record]) as Hwf.
  { constructor; [|constructor].
    split; [eexists; split; reflexivity|eexists; reflexivity]. }
  split; [reflexivity|]. split; [exact Hwf|].
  destruct (prediction_outputs default_model "export" empty_world feeds sess
              [prediction_record] eq_refl Hwf)
    as (w' & outputs & key_t & prediction_t & scores_t & keys & classes & scores
        & Hrun & _ & _ & _ & _ & _ & _ & Hscores & Hlen & Hdist & _).
  exists w', scores_t, scores. repeat split; assumption.
Defined.


(** The caller gives --batch_size=50 and nothing else. *)
Lemma create_model_arguments_complete_witness :
  let sys_argv := ["task.py"; "--batch_size=50"] in
  argparse.parse_nothing create_model_parser (tail sys_argv)
    = Some ({[ "learning_rate" := 0.01%R ]}, ["--batch_size=50"]) ∧
  ({[ "learning_rate" := 0.01%R ]} : gmap string R) !! "learning_rate"
    = Some 0.01%R ∧
  ∃ model result,
    create_model argparse.parse_nothing sys_argv = Some (model, result) ∧
    (∀ flag argument, (flag, argument) ∈ task_defaults →
       util.key_present flag result = true) ∧
    inject_defaults task_defaults result = result.
Proof.
  intros sys_argv.
  assert (argparse.parse_nothing create_model_parser (tail sys_argv)
          = Some ({[ "learning_rate" := 0.01%R ]}, ["--batch_size=50"])) as Hparse
    by reflexivity.
  assert (({[ "learning_rate" := 0.01%R ]} : gmap string R) !! "learning_rate"
          = Some 0.01%R) as Hlr by apply lookup_singleton_eq.
  split; [exact Hparse|]. split; [exact Hlr|].
  destruct (create_model_arguments_complete argparse.parse_nothing sys_argv _ _ _
              Hparse Hlr) as (model & result & Heq & Hall & Hidem & _).
  exists model, result. repeat split; assumption.
Defined.

(** A training batch of one record with label 7, zero gradients. *)
Lemma training_step_on_labelled_batch_witness :
  let feeds := feed_reader [labelled_record] in
  reader_batch feeds = Some ([], [labelled_record]) ∧
  Forall well_formed_record [labelled_record] ∧
  Forall (fun ex => ∃ l, label_of ex = Some l ∧ 0 <= l <= 9) [labelled_record] ∧
  ∃ refs w' train_op sess',
    build_train_graph default_model [] 1 empty_world = Some (refs, w') ∧
    train refs = Some train_op ∧
    run zero_gradients feeds (initial_session w' small_params) train_op
      = Some sess' ∧
    (eval feeds sess' <$> global_step refs) = Some (Some (VInt0 1)).
Proof.
  intros feeds.
  pose proof labelled_record_well_formed as Hwf.
  pose proof labelled_record_labelled as Hlab.
  split; [reflexivity|]. split; [exact Hwf|]. split; [exact Hlab|].
  destruct (training_step_on_labelled_batch zero_gradients default_model [] 1
              empty_world small_params feeds [] [labelled_record]
              eq_refl Hwf Hlab)
    as (refs & w' & train_op & sess' & sess'' & H1 & H2 & H3 & H4 & _).
  exists refs, w', train_op, sess'. repeat split; assumption.
Defined.

(** The streaming means of the evaluation graph after one batch of one
    record with label 7: they read the loss and the accuracy of that batch. *)
Lemma build_graph_streaming_means_witness :
  let feeds := feed_reader [labelled_record] in
  ∃ refs w' sess' L A,
    build_graph default_model [] 1 false empty_world = Some (refs, w') ∧
    run_batches zero_gradients [feeds] (initial_session w' small_params)
      (metric_updates refs) = Some sess' ∧
    eval feeds sess' <$> metric_values refs
    = [Some (VFloat0 L); Some (VFloat0 A)] ∧
    (eval feeds sess' <$> global_step refs) = Some (Some (VInt0 0)).
Proof.
  intros feeds.
  destruct (build_graph_streaming_means zero_gradients default_model [] 1 false
              empty_world)
    as (refs & w' & s1 & s2 & logits & labels & Hrun & Hupd & _ & Hmeans).
  rewrite build_graph_run in Hrun. injection Hrun as <- <-.
  injection Hupd as _ <- <- _.
  pose proof (fun sess => labelled_batch_evaluates feeds sess
                (reader_call [] 1 false) 0 HIDDEN1 HIDDEN2 [] [labelled_record]
                eq_refl labelled_record_well_formed labelled_record_labelled)
    as Hev.
  cbv zeta in Hev.
  specialize (Hmeans small_params [feeds]).
  match type of Hmeans with
  | ∀ values, Forall2 (fun f v => eval f ?s _ = _ ∧ _) _ _ → _ =>
      destruct (Hev s) as (cs & bs & HL & HA & Hcl & Hbl)
  end.
  destruct cs as [|c cs]; [discriminate Hcl|].
  destruct bs as [|b bs]; [discriminate Hbl|].
  destruct (Hmeans [(mean (c :: cs), mean (b :: bs))])
    as (sess' & Hbatches & Hvalues & _ & Hstep).
  { constructor; [split; [exact HL|exact HA]|constructor]. }
  eexists _, _, sess', (mean (c :: cs)), (mean (b :: bs)).
  split; [apply build_graph_run|].
  split; [exact Hbatches|].
  split; [|apply Hstep].
  rewrite Hvalues. cbn [fmap list_fmap fst snd].
  rewrite !mean_singleton. reflexivity.
Defined.

(** [inference] on the parsed labels, which are integers, and on the parsed
    images of a batch of one record. *)
Lemma inference_logits_shape_witness :
  let feeds := feed_reader [labelled_record] in
  let sess := initial_session empty_world small_params in
  layer_input_ok sample_labels = false ∧
  inference sample_labels HIDDEN1 HIDDEN2 empty_world = None ∧
  dtype_of sample_images = Some DT_FLOAT ∧
  rank_of sample_images = Some 2%nat ∧
  (0 < HIDDEN1)%nat ∧ (0 < HIDDEN2)%nat ∧
  ∃ logits,
    inference sample_images HIDDEN1 HIDDEN2 empty_world
      = Some (sample_logits, world_with_layers) ∧
    eval feeds sess sample_logits = Some (VFloat2 logits) ∧
    length logits = 1%nat ∧
    Forall (fun row => length row = 10%nat ∧
                       Forall (fun x => (0 <= x)%R) row) logits.
Proof.
  intros feeds sess.
  assert (0 < HIDDEN1)%nat as H1 by (unfold HIDDEN1; lia).
  assert (0 < HIDDEN2)%nat as H2 by (unfold HIDDEN2; lia).
  split; [reflexivity|].
  split; [apply (inference_logits_shape sample_labels HIDDEN1 HIDDEN2 empty_world);
          reflexivity|].
  split; [reflexivity|]. split; [reflexivity|].
  split; [exact H1|]. split; [exact H2|].
  destruct (proj2 (inference_logits_shape sample_images HIDDEN1 HIDDEN2 empty_world)
              eq_refl eq_refl H1 H2)
    as (t & w' & Hrun & _ & _ & _ & Hshape & _).
  assert (inference sample_images HIDDEN1 HIDDEN2 empty_world
          = Some (sample_logits, world_with_layers)) as Hsample by reflexivity.
  rewrite Hsample in Hrun. injection Hrun as <- <-.
  assert (eval feeds sess sample_images
          = Some (VFloat2 (image_of <$> [labelled_record]))) as Himg.
  { unfold sample_images.
    rewrite (eval_parse_examples feeds sess sample_examples [labelled_record]
               "images" _ eq_refl labelled_record_well_formed eq_refl).
    apply parse_dense_images, labelled_record_well_formed. }
  destruct (Hshape feeds sess _ Himg) as (logits & Heval & Hlen & Hrows).
  exists logits. split; [exact Hsample|]. split; [exact Heval|].
  split; [exact Hlen|exact Hrows].
Defined.

(** A loss fed through a placeholder depends on no layer.  The logits of the
    sample graph, a matrix with one row of 10 entries, do: the train op for
    them runs in a session that also holds a second integer variable and
    streaming means, and leaves those and the layers outside the graph as
    they were. *)
Lemma train_op_frame_witness :
  let feeds := feed_reader [labelled_record] in
  training (Placeholder 0 DT_FLOAT) 0.01%R empty_world = None ∧
  trained_scopes sample_logits ≠ [] ∧
  ∃ train_op w' sess',
    training sample_logits 0.01%R world_with_layers
      = Some ((train_op, VariableRef 0), w') ∧
    run zero_gradients feeds busy_session train_op = Some sess' ∧
    metric_variables sess' = metric_variables busy_session ∧
    int_variables sess' !! 1%nat = Some 41 ∧
    layer_params sess' 7%nat = small_params 7%nat.
Proof.
  intros feeds.
  assert (trained_scopes sample_logits ≠ []) as Htrained by discriminate.
  split; [apply (train_op_frame zero_gradients (Placeholder 0 DT_FLOAT) 0.01%R
                   empty_world); reflexivity|].
  split; [exact Htrained|].
  destruct (proj2 (train_op_frame zero_gradients sample_logits 0.01%R
                     world_with_layers) Htrained)
    as (train_op & w' & i & Htrain & _ & Hcompletes & Hframe).
  rewrite training_run in Htrain by exact Htrained. injection Htrain as <- <- <-.
  assert (is_Some (eval feeds busy_session sample_logits)) as Heval.
  { assert (eval feeds busy_session sample_images
            = Some (VFloat2 (image_of <$> [labelled_record]))) as Himg.
    { unfold sample_images.
      rewrite (eval_parse_examples feeds busy_session sample_examples
                 [labelled_record] "images" _ eq_refl labelled_record_well_formed
                 eq_refl).
      apply parse_dense_images, labelled_record_well_formed. }
    destruct (eval_inference feeds busy_session 0 _ HIDDEN1 HIDDEN2 _ Himg)
      as (logits & Hlogits & _).
    exists (VFloat2 logits). exact Hlogits. }
  destruct (Hcompletes feeds busy_session Heval (mk_is_Some _ _ eq_refl))
    as [sess' Hrun].
  destruct (Hframe feeds busy_session sess' Hrun) as (Hm & _ & Hother & Hlayers).
  eexists _, _, sess'. split; [apply training_run, Htrained|].
  split; [exact Hrun|]. split; [exact Hm|].
  split; [rewrite (Hother 1%nat) by discriminate; reflexivity|].
  apply Hlayers. unfold sample_logits, inference_tensor. cbn [trained_scopes].
  intros Hin. repeat (apply elem_of_cons in Hin as [Hin|Hin]; [discriminate Hin|]).
  inversion Hin.
Defined.

(** A prediction batch whose only record has no feature at all. *)
Lemma prediction_rejects_batch_witness :
  let feeds := feed_placeholder_0 (VExamples [∅]) in
  let sess := initial_session empty_world small_params in
  feed_dict feeds (next_placeholder empty_world) = Some (VExamples [∅]) ∧
  ([∅] : list Example) !! 0%nat = Some ∅ ∧
  ∃ w' outputs,
    build_prediction_graph default_model "export" empty_world = Some (tt, w') ∧
    last (get_collection "outputs" w') = Some (JsonObject outputs) ∧
    ∀ name t, outputs !! name = Some (NameOf t) → eval feeds sess t = None.
Proof.
  intros feeds sess. split; [reflexivity|]. split; [reflexivity|].
  destruct (prediction_rejects_batch default_model "export" empty_world feeds
              sess [∅] 0 ∅ eq_refl eq_refl) as (w' & outputs & H1 & H2 & _ & H3).
  { left. intros k Hk. rewrite lookup_empty in Hk. discriminate Hk. }
  exists w', outputs. repeat split; assumption.
Defined.
